(** * Burdy: the post controller

    A shallow embedding of [src/server/controllers/post.controller.ts]: the
    publish-window test, the version snapshot, the create, copy, publish,
    update, content-update, read, version-list and restore handlers over a
    transactional store, the reference compiler [compilePost] with the
    public content and preview endpoints, and of the environment defaults
    and definitions of [src/scripts/util/env.util.ts].

    Conventions of the embedding.
    - Timestamps are integers (milliseconds since the epoch); the clock
      ([new Date()]) is an argument [now] of whatever reads it, and the
      reads of one call see the same instant.
    - A table is the list of its rows in insertion order; a query filters
      or maps that list.
    - A handler runs against a [Db] and yields its response or the error it
      throws, together with the [Db] it leaves behind; a transaction that
      throws leaves the [Db] it started from. Request validation, the
      response mappers and the logger are left out.
    - The collaborators that live outside the controller (content parser,
      mappers, ORM helpers, schema and [LIKE] of the connection) are the
      members of the interface [Collaborators]. *)

From Stdlib Require Import ZArith List String Ascii Bool Lia DecimalString Sorted.
From stdpp Require Import gmap strings.
Import ListNotations.
Local Open Scope string_scope.

(* stdpp seals [String.append] against [simpl]; the proofs on paths unfold it *)
#[local] Arguments String.append !s1 s2 : simpl nomatch.

(** ** Strings *)

Definition slash : ascii := "/"%char.
Definition dot : ascii := "."%char.

(** [s.split(sep)] for a one-character separator. *)
Fixpoint split (sep : ascii) (s : string) : list string :=
  match s with
  | EmptyString => [EmptyString]
  | String c r =>
      if Ascii.eqb c sep then EmptyString :: split sep r
      else match split sep r with
           | h :: t => String c h :: t
           | [] => [String c EmptyString]
           end
  end.

(** [components.join(sep)]. *)
Fixpoint join (sep : string) (l : list string) : string :=
  match l with
  | [] => EmptyString
  | [x] => x
  | x :: r => x ++ sep ++ join sep r
  end.

(** [components.pop()]: the array without its last element. *)
Definition pop {A : Type} (l : list A) : list A := removelast l.

(** [s.slice(n)] for [0 <= n]. *)
Definition slice (n : nat) (s : string) : string :=
  substring n (String.length s - n) s.

(** [s.startsWith(p)]. *)
Definition startsWith (p s : string) : bool := String.prefix p s.

(** [LIKE] as PostgreSQL has it: [%] matches any run of characters, [_] any
    one character, a backslash takes the next pattern character literally,
    and letters match by case. *)
Fixpoint like_chars (p : list ascii) : list ascii -> bool :=
  match p with
  | [] => fun s => match s with [] => true | _ => false end
  | c :: p' =>
      if Ascii.eqb c "%"%char then
        fix skip (s : list ascii) : bool :=
          like_chars p' s || match s with [] => false | _ :: s' => skip s' end
      else if Ascii.eqb c "_"%char then
        fun s => match s with [] => false | _ :: s' => like_chars p' s' end
      else if Ascii.eqb c "\"%char then
        match p' with
        | [] => fun s => match s with [d] => Ascii.eqb d c | _ => false end
        | e :: p'' =>
            fun s => match s with
                     | [] => false
                     | d :: s' => Ascii.eqb d e && like_chars p'' s'
                     end
        end
      else
        fun s => match s with
                 | [] => false
                 | d :: s' => Ascii.eqb d c && like_chars p' s'
                 end
  end.

Definition LIKE (s pattern : string) : bool :=
  like_chars (list_ascii_of_string pattern) (list_ascii_of_string s).

(** ** JavaScript values

    The content tree and the public representations are plain objects;
    an array is the object of its indices. *)

#[warnings="-register-all"]
Inductive Json : Type :=
| JUndefined
| JNull
| JBool (b : bool)
| JNum (n : Z)
| JStr (s : string)
| JObj (fields : list (string * Json)).

(** [!!v] *)
Definition truthy (v : Json) : bool :=
  match v with
  | JUndefined | JNull => false
  | JBool b => b
  | JNum n => negb (n =? 0)%Z
  | JStr s => negb (s =? "")
  | JObj _ => true
  end.

(** [fields[k]], [undefined] when [k] is not a property. *)
Fixpoint prop (k : string) (fields : list (string * Json)) : Json :=
  match fields with
  | [] => JUndefined
  | (k', v) :: r => if k' =? k then v else prop k r
  end.

(** [fields[k] = v]: an existing property keeps its place, a new one goes last. *)
Fixpoint assign (k : string) (v : Json) (fields : list (string * Json))
  : list (string * Json) :=
  match fields with
  | [] => [(k, v)]
  | (k', v') :: r => if k' =? k then (k, v) :: r else (k', v') :: assign k v r
  end.

(** [v.k] *)
Definition member (k : string) (v : Json) : Json :=
  match v with JObj fs => prop k fs | _ => JUndefined end.

(** Decimal spelling of an array or string index. *)
Definition index_key (n : nat) : string := NilEmpty.string_of_uint (Nat.to_uint n).

Fixpoint chars_from (n : nat) (s : string) : list (string * Json) :=
  match s with
  | EmptyString => []
  | String c r => (index_key n, JStr (String c EmptyString)) :: chars_from (S n) r
  end.

(** The own enumerable properties a spread [{...v}] copies. *)
Definition ownProps (v : Json) : list (string * Json) :=
  match v with
  | JObj fs => fs
  | JStr s => chars_from 0 s
  | _ => []
  end.

(** [{...a, ...b}] *)
Definition spread (a b : list (string * Json)) : list (string * Json) :=
  fold_left (fun acc kv => assign (fst kv) (snd kv) acc) b a.

(** [k in fields] *)
Definition hasProp (k : string) (fields : list (string * Json)) : bool :=
  existsb (fun kv => fst kv =? k) fields.

(** *** lodash paths

    [_.set] and [_.get] take the key through lodash's [castPath]: a key
    that [isKey] accepts is the whole path, any other is cut by
    [stringToPath]. A key is read as a string of 8-bit characters. *)

Definition isDigit (c : ascii) : bool :=
  Nat.leb 48 (nat_of_ascii c) && Nat.leb (nat_of_ascii c) 57.

(** A word character of a regular expression: letter, digit, underscore. *)
Definition isWordChar (c : ascii) : bool :=
  let n := nat_of_ascii c in
  isDigit c || (Nat.leb 65 n && Nat.leb n 90) || (Nat.leb 97 n && Nat.leb n 122)
  || Nat.eqb n 95.

(** [reIsPlainProp]: word characters only. *)
Definition isPlainProp (s : string) : bool :=
  forallb isWordChar (list_ascii_of_string s).

Definition isQuote (c : ascii) : bool :=
  Ascii.eqb c "034"%char || Ascii.eqb c "'"%char.

(** What [.] does not match. *)
Definition isLineTerminator (c : ascii) : bool :=
  Nat.eqb (nat_of_ascii c) 10 || Nat.eqb (nat_of_ascii c) 13.

(** The quoted alternative of [rePropName] and [reIsDeepProp], after the
    opening bracket and the quote [q]: characters other than [q] and the
    backslash, or a backslash and one more character, up to the first [q],
    which the closing bracket must follow. The result is the body between
    the quotes and what follows the closing bracket. *)
Fixpoint quotedBody (q : ascii) (s : list ascii) : option (list ascii * list ascii) :=
  match s with
  | [] => None
  | c :: r =>
      if Ascii.eqb c q then
        match r with
        | b :: r' => if Ascii.eqb b "]"%char then Some ([], r') else None
        | [] => None
        end
      else if Ascii.eqb c "\"%char then
        match r with
        | d :: r' =>
            if isLineTerminator d then None
            else match quotedBody q r' with
                 | Some (body, rest) => Some (c :: d :: body, rest)
                 | None => None
                 end
        | [] => None
        end
      else match quotedBody q r with
           | Some (body, rest) => Some (c :: body, rest)
           | None => None
           end
  end.

Definition quotedKey (s : list ascii) : option (list ascii * list ascii) :=
  match s with
  | q :: r => if isQuote q then quotedBody q r else None
  | [] => None
  end.

(** The plain alternative of [reIsDeepProp], after the opening bracket:
    characters other than brackets, then the closing bracket. *)
Fixpoint closesPlain (s : list ascii) : bool :=
  match s with
  | [] => false
  | c :: r =>
      if Ascii.eqb c "]"%char then true
      else if Ascii.eqb c "["%char then false
      else closesPlain r
  end.

(** [reIsDeepProp] finds a match somewhere in the key: a dot, or an
    opening bracket followed by the plain or the quoted alternative. *)
Fixpoint isDeepProp (s : list ascii) : bool :=
  match s with
  | [] => false
  | c :: r =>
      Ascii.eqb c "."%char
      || (Ascii.eqb c "["%char
          && (closesPlain r || match quotedKey r with Some _ => true | None => false end))
      || isDeepProp r
  end.

(** [isKey(value, object)] for a string. *)
Definition isKey (key : string) (object : Json) : bool :=
  isPlainProp key
  || negb (isDeepProp (list_ascii_of_string key))
  || match object with JObj fs => hasProp key fs | _ => false end.

(** The leading digits and what follows them. *)
Fixpoint digits (s : list ascii) : list ascii * list ascii :=
  match s with
  | c :: r => if isDigit c then let (d, rest) := digits r in (c :: d, rest) else ([], s)
  | [] => ([], [])
  end.

(** The number alternative of [rePropName], after the opening bracket: an
    optional minus, digits, optionally a dot and digits, then the closing
    bracket. The result is the number as it is spelled and what follows
    the closing bracket. *)
Definition bracketNumber (s : list ascii) : option (list ascii * list ascii) :=
  let (sign, s1) := match s with
                    | c :: r => if Ascii.eqb c "-"%char then ([c], r) else ([], s)
                    | [] => ([], s)
                    end in
  let (whole, s2) := digits s1 in
  match whole, s2 with
  | _ :: _, c :: r =>
      if Ascii.eqb c "]"%char then Some ((sign ++ whole)%list, r)
      else if Ascii.eqb c "."%char then
        let (fraction, s3) := digits r in
        match fraction, s3 with
        | _ :: _, c' :: r' =>
            if Ascii.eqb c' "]"%char
            then Some ((sign ++ whole ++ c :: fraction)%list, r')
            else None
        | _, _ => None
        end
      else None
  | _, _ => None
  end.

(** [subString.replace(reEscapeChar, '$1')]: a backslash is dropped, and of
    two backslashes one stays. *)
Fixpoint unescape (s : list ascii) : list ascii :=
  match s with
  | [] => []
  | c :: r =>
      if Ascii.eqb c "\"%char then
        match r with
        | d :: r' => if Ascii.eqb d "\"%char then d :: unescape r' else unescape r
        | [] => []
        end
      else c :: unescape r
  end.

Definition isPathSpecial (c : ascii) : bool :=
  Ascii.eqb c "."%char || Ascii.eqb c "["%char || Ascii.eqb c "]"%char.

(** The run of characters other than the dot and the brackets. *)
Fixpoint plainRun (s : list ascii) : list ascii :=
  match s with
  | c :: r => if isPathSpecial c then [] else c :: plainRun r
  | [] => []
  end.

(** The second half of the lookahead of [rePropName]: a dot, an empty pair
    of brackets or the end of the key. *)
Definition emptyKeyFollows (s : list ascii) : bool :=
  match s with
  | [] => true
  | c :: r =>
      Ascii.eqb c "."%char
      || (Ascii.eqb c "["%char
          && match r with d :: _ => Ascii.eqb d "]"%char | [] => false end)
  end.

(** The match of [rePropName] that starts at the first character of the
    string, if there is one: the key it pushes and how many characters
    after the first it covers. *)
Definition propNameAt (c : ascii) (r : list ascii) : option (list ascii * nat) :=
  if negb (isPathSpecial c) then
    Some (c :: plainRun r, List.length (plainRun r))
  else if Ascii.eqb c "["%char then
    match bracketNumber r with
    | Some (number, rest) => Some (number, List.length r - List.length rest)
    | None =>
        match quotedKey r with
        | Some (body, rest) => Some (unescape body, List.length r - List.length rest)
        | None =>
            match r with
            | d :: r' => if Ascii.eqb d "]"%char && emptyKeyFollows r'
                         then Some ([], 0) else None
            | [] => None
            end
        end
    end
  else if Ascii.eqb c "."%char then
    if emptyKeyFollows r then Some ([], 0) else None
  else None.

(** [string.replace(rePropName, ...)]: the matches from left to right;
    [covered] counts the characters of the last match still to pass. *)
Fixpoint propNames (covered : nat) (s : list ascii) : list string :=
  match s with
  | [] => []
  | c :: r =>
      match covered with
      | S n => propNames n r
      | O =>
          match propNameAt c r with
          | Some (k, n) => string_of_list_ascii k :: propNames n r
          | None => propNames 0 r
          end
      end
  end.

(** lodash's [stringToPath]. *)
Definition stringToPath (key : string) : list string :=
  match key with
  | String c _ => if Ascii.eqb c "."%char then [""] else []
  | EmptyString => []
  end ++ propNames 0 (list_ascii_of_string key).

(** lodash's [castPath(value, object)] for a string. *)
Definition castPath (key : string) (object : Json) : list string :=
  if isKey key object then [key] else stringToPath key.

(** The keys [baseSet] refuses to assign. *)
Definition refusedKey (k : string) : bool :=
  (k =? "__proto__") || (k =? "constructor") || (k =? "prototype").

(** lodash's [baseSet] along a path: a missing or non-object step on the
    way is replaced by a new object; at a refused key the walk stops and
    what was assigned so far stays. *)
Fixpoint setPath (path : list string) (v : Json) (fields : list (string * Json))
  : list (string * Json) :=
  match path with
  | [] => fields
  | k :: rest =>
      if refusedKey k then fields
      else match rest with
           | [] => assign k v fields
           | _ :: _ =>
               let child := match prop k fields with JObj fs => fs | _ => [] end in
               assign k (JObj (setPath rest v child)) fields
           end
  end.

(** lodash [_.set(object, path, value)]; a non-object [object] is returned
    as it is. *)
Definition lodash_set (object : Json) (key : string) (v : Json) : Json :=
  match object with
  | JObj fs => JObj (setPath (castPath key object) v fs)
  | _ => object
  end.

Fixpoint getPath (path : list string) (v : Json) : Json :=
  match path with
  | [] => v
  | k :: rest => getPath rest (member k v)
  end.

(** lodash [_.get(object, path, defaultValue)]. *)
Definition lodash_get (object : Json) (key : string) (dflt : Json) : Json :=
  match getPath (castPath key object) object with
  | JUndefined => dflt
  | v => v
  end.

(** lodash [_.uniq]: the first occurrence of each element, in order. *)
Fixpoint uniq_from {A : Type} `{EqDecision A} (seen l : list A) : list A :=
  match l with
  | [] => []
  | x :: r =>
      if existsb (fun y => bool_decide (x = y)) seen then uniq_from seen r
      else x :: uniq_from (x :: seen) r
  end.

Definition uniq {A : Type} `{EqDecision A} (l : list A) : list A := uniq_from [] l.

(** [String(v)], the property key a value is used as. *)
Definition decimal (n : Z) : string := NilZero.string_of_int (Z.to_int n).

Definition propertyKey (v : Json) : string :=
  match v with
  | JUndefined => "undefined"
  | JNull => "null"
  | JBool true => "true"
  | JBool false => "false"
  | JNum n => decimal n
  | JStr s => s
  | JObj _ => "[object Object]"
  end.

(** An optional string or number that is falsy counts as absent. *)
Definition truthyString (o : option string) : option string :=
  match o with
  | Some s => if s =? "" then None else Some s
  | None => None
  end.

Definition truthyNum (o : option Z) : option Z :=
  match o with
  | Some i => if (i =? 0)%Z then None else Some i
  | None => None
  end.

(** ** Entities *)

Record Meta : Type := {
  meta_id : option Z;
  key : string;
  value : string
}.

Record Post : Type := {
  id : option Z;
  type : string;
  name : string;
  slug : string;
  slugPath : string;
  status : string;
  publishedAt : option Z;
  publishedFrom : option Z;
  publishedUntil : option Z;
  updatedAt : option Z;
  parent : option Z;
  contentType : option Z;
  meta : list Meta;
  tags : list Z;
  author : option Z;
  content : option string
}.

Record Asset : Type := {
  asset_id : Z;
  asset_name : string
}.

(** What [parseContent] hands back: the content tree with the link markers
    still in place, and the two link tables keyed by content path. *)
Record Parsed : Type := {
  parsed_content : Json;
  parsed_assets : list (string * option Z);
  parsed_references : list (string * option Z)
}.

Record Db : Type := {
  posts : list Post;
  tagTable : list Z;
  assetTable : list Asset
}.

Inductive Error : Type :=
| BadRequestError (message : string)
| QueryFailedError (code : string)
| TypeError (message : string).

Inductive Result (A : Type) : Type :=
| Ok (a : A)
| Err (e : Error).

Arguments Ok {A} a.
Arguments Err {A} e.

(** ** Collaborators of the controller *)

Class Collaborators : Type := {
  (** [@server/common/post.parser] *)
  parseContent : Post -> Parsed;
  (** [@server/common/mappers] *)
  mapPublicPostWithMeta : Post -> Json;
  mapPublicAsset : Asset -> Json;
  (** [@server/common/orm-helpers]: the meta rows of [post] once
      [updateMeta(manager, Post, post, metas, pattern)] has run. *)
  updateMeta : Post -> list Meta -> option string -> list Meta;
  (** The tree repository of the [Post] entity. *)
  findDescendants : list Post -> Post -> list Post;
  (** [LIKE] of the connection ([TYPEORM_CONNECTION]), string then pattern:
      whether letters match by case and which character escapes a wildcard
      is the database's. *)
  like : string -> string -> bool;
  (** The constraints of the [post] table: the driver's error code for a
      table state the schema rejects. *)
  violation : list Post -> option string;
  (** The column defaults of the [post] table: what a new row holds in the
      columns the saved object does not give. *)
  columnDefaults : Post
}.

(** ** Field updates *)

Definition set_id (v : option Z) (p : Post) : Post :=
  {| id := v; type := type p; name := name p; slug := slug p;
     slugPath := slugPath p; status := status p; publishedAt := publishedAt p;
     publishedFrom := publishedFrom p; publishedUntil := publishedUntil p;
     updatedAt := updatedAt p; parent := parent p; contentType := contentType p;
     meta := meta p; tags := tags p; author := author p; content := content p |}.

Definition set_name (v : string) (p : Post) : Post :=
  {| id := id p; type := type p; name := v; slug := slug p;
     slugPath := slugPath p; status := status p; publishedAt := publishedAt p;
     publishedFrom := publishedFrom p; publishedUntil := publishedUntil p;
     updatedAt := updatedAt p; parent := parent p; contentType := contentType p;
     meta := meta p; tags := tags p; author := author p; content := content p |}.

Definition set_slug (v : string) (p : Post) : Post :=
  {| id := id p; type := type p; name := name p; slug := v;
     slugPath := slugPath p; status := status p; publishedAt := publishedAt p;
     publishedFrom := publishedFrom p; publishedUntil := publishedUntil p;
     updatedAt := updatedAt p; parent := parent p; contentType := contentType p;
     meta := meta p; tags := tags p; author := author p; content := content p |}.

Definition set_slugPath (v : string) (p : Post) : Post :=
  {| id := id p; type := type p; name := name p; slug := slug p;
     slugPath := v; status := status p; publishedAt := publishedAt p;
     publishedFrom := publishedFrom p; publishedUntil := publishedUntil p;
     updatedAt := updatedAt p; parent := parent p; contentType := contentType p;
     meta := meta p; tags := tags p; author := author p; content := content p |}.

Definition set_updatedAt (v : option Z) (p : Post) : Post :=
  {| id := id p; type := type p; name := name p; slug := slug p;
     slugPath := slugPath p; status := status p; publishedAt := publishedAt p;
     publishedFrom := publishedFrom p; publishedUntil := publishedUntil p;
     updatedAt := v; parent := parent p; contentType := contentType p;
     meta := meta p; tags := tags p; author := author p; content := content p |}.

Definition set_meta (v : list Meta) (p : Post) : Post :=
  {| id := id p; type := type p; name := name p; slug := slug p;
     slugPath := slugPath p; status := status p; publishedAt := publishedAt p;
     publishedFrom := publishedFrom p; publishedUntil := publishedUntil p;
     updatedAt := updatedAt p; parent := parent p; contentType := contentType p;
     meta := v; tags := tags p; author := author p; content := content p |}.

Definition set_tags (v : list Z) (p : Post) : Post :=
  {| id := id p; type := type p; name := name p; slug := slug p;
     slugPath := slugPath p; status := status p; publishedAt := publishedAt p;
     publishedFrom := publishedFrom p; publishedUntil := publishedUntil p;
     updatedAt := updatedAt p; parent := parent p; contentType := contentType p;
     meta := meta p; tags := v; author := author p; content := content p |}.

Definition set_author (v : option Z) (p : Post) : Post :=
  {| id := id p; type := type p; name := name p; slug := slug p;
     slugPath := slugPath p; status := status p; publishedAt := publishedAt p;
     publishedFrom := publishedFrom p; publishedUntil := publishedUntil p;
     updatedAt := updatedAt p; parent := parent p; contentType := contentType p;
     meta := meta p; tags := tags p; author := v; content := content p |}.

Definition set_content (v : option string) (p : Post) : Post :=
  {| id := id p; type := type p; name := name p; slug := slug p;
     slugPath := slugPath p; status := status p; publishedAt := publishedAt p;
     publishedFrom := publishedFrom p; publishedUntil := publishedUntil p;
     updatedAt := updatedAt p; parent := parent p; contentType := contentType p;
     meta := meta p; tags := tags p; author := author p; content := v |}.

(** The [SET] clause of the publish query. *)
Definition set_publication (at_ : option Z) (st : string) (from until : option Z)
    (upd : option Z) (p : Post) : Post :=
  {| id := id p; type := type p; name := name p; slug := slug p;
     slugPath := slugPath p; status := st; publishedAt := at_;
     publishedFrom := from; publishedUntil := until;
     updatedAt := upd; parent := parent p; contentType := contentType p;
     meta := meta p; tags := tags p; author := author p; content := content p |}.

Definition set_posts (rows : list Post) (db : Db) : Db :=
  {| posts := rows; tagTable := tagTable db; assetTable := assetTable db |}.

(** ** Publish window *)

(** date-fns [isBefore(date, dateToCompare)] and [isAfter]. *)
Definition isBefore (date dateToCompare : Z) : bool := (date <? dateToCompare)%Z.
Definition isAfter (date dateToCompare : Z) : bool := (dateToCompare <? date)%Z.

Definition isPostPublished (now : Z) (post : option Post) : bool :=
  match post with
  | Some p =>
      if status p =? "published" then
        if match publishedFrom p with
           | Some from => isBefore now from
           | None => false
           end
        then false
        else if match publishedUntil p with
                | Some until => isAfter now until
                | None => false
                end
        then false
        else true
      else false
  | None => false
  end.

(** ** The store inside a transaction *)

Definition Tx (A : Type) : Type := Db -> Result (A * Db).

Definition ret {A : Type} (a : A) : Tx A := fun db => Ok (a, db).

Definition bind {A B : Type} (m : Tx A) (k : A -> Tx B) : Tx B :=
  fun db =>
    match m db with
    | Ok (a, db') => k a db'
    | Err e => Err e
    end.

Definition throw {A : Type} (e : Error) : Tx A := fun _ => Err e.

Notation "x <- m ;; k" := (bind m (fun x => k))
  (at level 90, m at level 89, right associativity).
Notation "m ;;; k" := (bind m (fun _ => k))
  (at level 90, right associativity).

(** [entityManager.transaction(...)]: all the writes, or none of them. *)
Definition transaction {A : Type} (body : Tx A) (db : Db) : Result A * Db :=
  match body db with
  | Ok (a, db') => (Ok a, db')
  | Err e => (Err e, db)
  end.

(** [try { ... } catch (err) { throw handler(err) }] around a transaction. *)
Definition rethrowing {A : Type} (handler : Error -> Error) (r : Result A * Db)
  : Result A * Db :=
  match r with
  | (Err e, db) => (Err (handler e), db)
  | ok => ok
  end.

Definition hasId (i : Z) (p : Post) : bool :=
  match id p with
  | Some j => (j =? i)%Z
  | None => false
  end.

Definition idIn (ids : list Z) (p : Post) : bool := existsb (fun i => hasId i p) ids.

(** The ids of entities read from the store. *)
Definition idsOf (l : list Post) : list Z := omap id l.

(** The next value of the id sequence. *)
Definition nextId (rows : list Post) : Z :=
  (1 + fold_right (fun p m => match id p with Some j => Z.max j m | None => m end)
         0%Z rows)%Z.

Section Controller.

Context `{Collaborators}.

(** A write reaches the table unless the schema rejects the new state. *)
Definition write (rows : list Post) : Tx unit :=
  fun db =>
    match violation rows with
    | Some code => Err (QueryFailedError code)
    | None => Ok (tt, set_posts rows db)
    end.

Definition readPosts : Tx (list Post) := fun db => Ok (posts db, db).

(** [findOne] by primary key. *)
Definition findOne (i : Z) : Tx (option Post) :=
  rows <- readPosts ;; ret (find (hasId i) rows).

(** [findByIds(ids)] *)
Definition findByIds (ids : list Z) : Tx (list Post) :=
  rows <- readPosts ;; ret (List.filter (idIn ids) rows).

(** [save(entity)]: an entity without an id becomes a new row with the next
    id; one with an id replaces its row. *)
Definition save (p : Post) : Tx Post :=
  rows <- readPosts ;;
  match id p with
  | None =>
      let p' := set_id (Some (nextId rows)) p in
      write (rows ++ [p'])%list ;;; ret p'
  | Some i =>
      match find (hasId i) rows with
      | Some _ => write (map (fun r => if hasId i r then p else r) rows) ;;; ret p
      | None => write (rows ++ [p])%list ;;; ret p
      end
  end.

(** [UPDATE post SET ... WHERE cond] *)
Definition updateWhere (cond : Post -> bool) (set : Post -> Post) : Tx unit :=
  rows <- readPosts ;; write (map (fun r => if cond r then set r else r) rows).

(** ** Version snapshot *)

Definition createPostVersion (post : Post) (author_ : option Z)
    (uuids : string * string) : Tx Post :=
  save {| id := None;
          type := "post_version";
          name := name post;
          slug := fst uuids;
          slugPath := snd uuids;
          status := status columnDefaults;
          publishedAt := publishedAt columnDefaults;
          publishedFrom := publishedFrom columnDefaults;
          publishedUntil := publishedUntil columnDefaults;
          updatedAt := updatedAt columnDefaults;
          parent := id post;
          contentType := contentType post;
          meta := map (fun m => {| meta_id := None; key := key m; value := value m |})
                      (meta post);
          tags := tags post;
          author := author_;
          content := content columnDefaults |}.

(** ** Copy: [POST /posts/:postId/copy] *)

Record CopyBody : Type := {
  copy_parentId : option Z;
  copy_recursive : bool;
  copy_name : string;
  copy_slug : string
}.

Fixpoint insertBySlugPath (p : Post) (l : list Post) : list Post :=
  match l with
  | [] => [p]
  | q :: r => if String.leb (slugPath p) (slugPath q) then p :: q :: r
              else q :: insertBySlugPath p r
  end.

(** [ORDER BY post.slugPath ASC] *)
Definition orderBySlugPath (l : list Post) : list Post :=
  fold_right insertBySlugPath [] l.

Definition copyTypes : list string := ["folder"; "page"; "fragment"].

(** The subtree query of the recursive copy. *)
Definition subtreeOf (sourcePost : Post) : Tx (list Post) :=
  rows <- readPosts ;;
  ret (orderBySlugPath
         (List.filter
            (fun p => existsb (String.eqb (type p)) copyTypes
                      && ((slugPath p =? slugPath sourcePost)
                          || like (slugPath p) (slugPath sourcePost ++ "/%")))
            rows)).

Definition getSlugPath (parent_ : option Post) (slug_ : string) (sourcePost child : Post)
  : string :=
  match parent_ with Some q => slugPath q ++ "/" | None => "" end
  ++ slug_ ++ slice (String.length (slugPath sourcePost)) (slugPath child).

Definition getParent (created : list Post) (slugPath_ : string) : option Post :=
  let components := pop (split slash slugPath_) in
  find (fun post => slugPath post =? join "/" components) created.

Definition sameId (a b : Post) : bool := bool_decide (id a = id b).

Definition copyChild (parent_ : option Post) (body : CopyBody) (user : option Z)
    (sourcePost : Post) (created : list Post) (child : Post) : Tx (list Post) :=
  let slugPath_ := getSlugPath parent_ (copy_slug body) sourcePost child in
  post <- save {| id := None;
                  type := type child;
                  name := if sameId sourcePost child then copy_name body else name child;
                  slug := if sameId sourcePost child then copy_slug body else slug child;
                  slugPath := slugPath_;
                  status := status columnDefaults;
                  publishedAt := publishedAt columnDefaults;
                  publishedFrom := publishedFrom columnDefaults;
                  publishedUntil := publishedUntil columnDefaults;
                  updatedAt := updatedAt columnDefaults;
                  parent := (if sameId sourcePost child then parent_
                             else getParent created slugPath_) ≫= id;
                  contentType := contentType child;
                  meta := map (fun m => {| meta_id := None; key := key m; value := value m |})
                              (meta child);
                  tags := tags child;
                  author := user;
                  content := content columnDefaults |} ;;
  ret (created ++ [post])%list.

(** [children.reduce(async (promise, child) => ..., Promise.resolve())] *)
Fixpoint copyChildren (parent_ : option Post) (body : CopyBody) (user : option Z)
    (sourcePost : Post) (created children : list Post) : Tx (list Post) :=
  match children with
  | [] => ret created
  | child :: rest =>
      created' <- copyChild parent_ body user sourcePost created child ;;
      copyChildren parent_ body user sourcePost created' rest
  end.

Definition copyPost (postId : Z) (body : CopyBody) (user : option Z) (db : Db)
  : Result (list Post) * Db :=
  rethrowing (fun _ => BadRequestError "duplicate_slug")
    (transaction
       (parent_ <- match truthyNum (copy_parentId body) with
                   | Some parentId =>
                       found <- findOne parentId ;;
                       match found with
                       | Some q => ret (Some q)
                       | None => throw (BadRequestError "invalid_parent")
                       end
                   | None => ret None
                   end ;;
        found <- findOne postId ;;
        match found with
        | None => throw (BadRequestError "invalid_source")
        | Some loaded =>
            (* relations: meta, contentType, parent; the tags are not loaded *)
            let sourcePost := set_tags [] loaded in
            children <- (if copy_recursive body then subtreeOf sourcePost
                         else ret [sourcePost]) ;;
            copyChildren parent_ body user sourcePost [] children
        end)
       db).

(** ** Publish and unpublish: [PUT /posts/publish] *)

Record PublishBody : Type := {
  publish : bool;
  recursive : bool;
  ids : list Z;
  body_publishedFrom : option Z;
  body_publishedUntil : option Z
}.

(** The ids the update is applied to ([post.id IN (:...ids)]). *)
Definition publishTargets (body : PublishBody) (rows found : list Post) : list Z :=
  if recursive body then idsOf (concat (map (findDescendants rows) found))
  else idsOf found.

Definition publishSet (now : Z) (body : PublishBody) : Post -> Post :=
  if publish body then
    set_publication (Some now) "published" (truthyNum (body_publishedFrom body))
      (truthyNum (body_publishedUntil body)) (Some now)
  else
    set_publication None "draft" None None (Some now).

Definition publishPosts (now : Z) (body : PublishBody) (db : Db)
  : Result (list Post) * Db :=
  rethrowing (fun err => err)
    (transaction
       (found <- findByIds (ids body) ;;
        match found with
        | [] => throw (BadRequestError "invalid_ids")
        | _ =>
            rows <- readPosts ;;
            updateWhere (idIn (publishTargets body rows found)) (publishSet now body) ;;;
            findByIds (ids body)
        end)
       db).

(** ** Rename, retitle, retag: [PUT /posts/:postId] *)

Definition inSubtree (oldPath path : string) : bool :=
  (path =? oldPath) || startsWith (oldPath ++ "/") path.

Definition replacePrefix (oldPath newPath path : string) : string :=
  newPath ++ slice (String.length oldPath) path.

(** Modelled from the spec: [getReplaceChildrenQuery] of
    [@server/common/orm-helpers] is not among the sources. The bulk query
    rewrites every post whose [slugPath] equals [oldPath] or starts with
    [oldPath + "/"], replacing that prefix with [newPath]. It is given the
    two paths only, so the row of the renamed post, which still holds
    [oldPath] when the query runs, is rewritten with the rest; the handler
    saves the same value for it afterwards. *)
Definition getReplaceChildrenQuery (oldPath newPath : string) : Tx unit :=
  updateWhere (fun r => inSubtree oldPath (slugPath r))
    (fun r => set_slugPath (replacePrefix oldPath newPath (slugPath r)) r).

Record UpdateBody : Type := {
  upd_slug : option string;
  upd_name : option string;
  upd_tags : option (list (option Z))
}.

(** [tagRepository.find({ where: { id: In(ids) } })] *)
Definition findTags (wanted : list Z) : Tx (list Z) :=
  fun db => Ok (List.filter (fun t => existsb (Z.eqb t) wanted) (tagTable db), db).

Definition translateUnique (err : Error) : Error :=
  match err with
  | QueryFailedError code =>
      if code =? "23505" then BadRequestError "duplicate_slug" else err
  | _ => err
  end.

(** The [parent] relation of a loaded post. *)
Definition parentOf (rows : list Post) (post : Post) : option Post :=
  parent post ≫= (fun i => find (hasId i) rows).

Definition updatePost (now : Z) (postId : Z) (body : UpdateBody) (user : option Z)
    (uuids : string * string) (db : Db) : Result Post * Db :=
  rethrowing translateUnique
    (transaction
       (found <- findOne postId ;;
        loaded <- readPosts ;;
        match found with
        | None => throw (BadRequestError "invalid_post")
        | Some post =>
            if type post =? "post_version"
            then throw (BadRequestError "invalid_post_type")
            else
              createPostVersion post user uuids ;;;
              post1 <- match truthyString (upd_slug body) with
                       | Some newSlug =>
                           let oldSlugPath := slugPath post in
                           let newSlugPath :=
                             match parentOf loaded post with
                             | Some q => slugPath q ++ "/" ++ newSlug
                             | None => newSlug
                             end in
                           getReplaceChildrenQuery oldSlugPath newSlugPath ;;;
                           ret (set_slugPath newSlugPath (set_slug newSlug post))
                       | None => ret post
                       end ;;
              let post2 := match truthyString (upd_name body) with
                           | Some newName => set_name newName post1
                           | None => post1
                           end in
              post3 <- match upd_tags body with
                       | Some refs =>
                           found_tags <- findTags (omap truthyNum refs) ;;
                           ret (set_tags found_tags post2)
                       | None => ret post2
                       end ;;
              save (set_updatedAt (Some now) post3)
        end)
       db).

(** ** Content update: [PUT /posts/:postId/content] *)

Definition updateContent (now : Z) (postId : Z) (flat : list (string * string))
    (user : option Z) (uuids : string * string) (db : Db) : Result Post * Db :=
  rethrowing translateUnique
    (transaction
       (found <- findOne postId ;;
        match found with
        | None => throw (BadRequestError "invalid_post")
        | Some post =>
            createPostVersion post user uuids ;;;
            let metas := map (fun kv => {| meta_id := None;
                                           key := "content." ++ fst kv;
                                           value := snd kv |}) flat in
            let post1 := set_meta (updateMeta post metas (Some "^content")) post in
            save (set_updatedAt (Some now) (set_author user post1))
        end)
       db).

(** ** Restore: [POST /posts/:postId/versions/:versionId] *)

Definition findVersion (versionId postId : Z) : Tx (option Post) :=
  rows <- readPosts ;;
  ret (find (fun p => hasId versionId p
                      && bool_decide (parent p = Some postId)
                      && (type p =? "post_version")) rows).

Definition restoreVersion (postId versionId : Z) (user : option Z)
    (uuids : string * string) (db : Db) : Result Post * Db :=
  transaction
    (found <- findOne postId ;;
     match found with
     | None => throw (BadRequestError "invalid_post")
     | Some post =>
         foundVersion <- findVersion versionId postId ;;
         match foundVersion with
         | None => throw (BadRequestError "invalid_post_version")
         | Some postVersion =>
             createPostVersion post user uuids ;;;
             let post1 := set_meta (updateMeta post (meta postVersion) None) post in
             save (set_name (name postVersion)
                     (set_content (content postVersion)
                        (set_tags (tags postVersion) post1)))
         end
     end)
    db.

(** ** The reference compiler *)

Definition maxDebt : nat := 3.

(** [Promise.all]: every sub-compile runs to its end; the result is the
    first rejection, or the list of the values. [None] stands for a
    sub-compile that has not returned within the fuel. *)
Fixpoint promiseAll (l : list (option (Result Json))) : option (Result (list Json)) :=
  match l with
  | [] => Some (Ok [])
  | r :: rest =>
      match r, promiseAll rest with
      | Some (Ok v), Some (Ok vs) => Some (Ok (v :: vs))
      | Some (Ok _), Some (Err e) => Some (Err e)
      | Some (Err e), Some _ => Some (Err e)
      | _, _ => None
      end
  end.

(** [_.uniq(Object.values(refs || {})).filter(id => !!id)] *)
Definition distinctIds (refs : list (string * option Z)) : list Z :=
  omap truthyNum (uniq (map snd refs)).

(** [refs[key]] as a property key. *)
Definition refKey (refs : list (string * option Z)) (k : string) : string :=
  match find (fun kv => fst kv =? k) refs with
  | Some (_, Some i) => decimal i
  | Some (_, None) => "null"
  | None => "undefined"
  end.

(** [posts.forEach(post => { postsObj[post.id] = post; })]: reading [id] off
    a [null] (or [undefined]) element throws. *)
Fixpoint collectPosts (compiled : list Json) (postsObj : gmap string Json)
  : Result (gmap string Json) :=
  match compiled with
  | [] => Ok postsObj
  | post :: rest =>
      match post with
      | JNull | JUndefined =>
          Err (TypeError "Cannot read properties of null (reading 'id')")
      | _ => collectPosts rest (<[propertyKey (member "id" post) := post]> postsObj)
      end
  end.

Definition orUndefined (o : option Json) : Json :=
  match o with Some v => v | None => JUndefined end.

(** [Object.keys(references).forEach(key => _.set(content, key, postsObj[references[key]]))] *)
Definition injectReferences (refs : list (string * option Z))
    (postsObj : gmap string Json) (content_ : Json) : Json :=
  fold_left
    (fun c k => lodash_set c k (orUndefined (postsObj !! refKey refs k)))
    (map fst refs) content_.

(** The asset step of [compilePost]. *)
Definition injectAssets (db : Db) (assetsRefs : list (string * option Z))
    (content_ : Json) : Json :=
  let assetsIds := distinctIds assetsRefs in
  match assetsIds with
  | [] => content_
  | _ =>
      let assets := List.filter (fun a => existsb (Z.eqb (asset_id a)) assetsIds)
                      (assetTable db) in
      let assetsObj : gmap string Json :=
        fold_left (fun o a => <[decimal (asset_id a) := mapPublicAsset a]> o) assets ∅ in
      fold_left
        (fun c k =>
           let found := orUndefined (assetsObj !! refKey assetsRefs k) in
           lodash_set c k
             (JObj (spread (ownProps (lodash_get c k (JObj [])))
                      (ownProps (if truthy found then found else JObj [])))))
        (map fst assetsRefs) content_
  end.

(** [{ ...post, meta: { ...post.meta, content } }] *)
Definition withContent (public : Json) (content_ : Json) : Json :=
  JObj (assign "meta"
          (JObj (assign "content" content_ (ownProps (member "meta" public))))
          (ownProps public)).

(** The first step of [compilePost]: the post to compile. *)
Inductive Resolution : Type :=
| NoInput
| NotFound
| Resolved (post : Post).

Definition resolvePost (db : Db) (now : Z) (slugPath_ : option string)
    (id_ : option Z) (data : option Post) : Resolution :=
  match truthyString slugPath_, truthyNum id_, data with
  | None, None, None => NoInput
  | _, _, Some post => Resolved post
  | Some path, _, None =>
      match find (fun p => slugPath p =? path) (posts db) with
      | Some post => if isPostPublished now (Some post) then Resolved post else NotFound
      | None => NotFound
      end
  | None, Some i, None =>
      match find (hasId i) (posts db) with
      | Some post => if isPostPublished now (Some post) then Resolved post else NotFound
      | None => NotFound
      end
  end.

(** The rest of [compilePost], from [parseContent] on; [subCompile id] is
    the recursive call [compilePost({ id, allowNull: true }, null, debt + 1)]. *)
Definition compileResolved (subCompile : Z -> option (Result Json)) (db : Db)
    (post : Post) (debt : nat) : option (Result Json) :=
  let parsed := parseContent post in
  let content_ := parsed_content parsed in
  let assetsRefs := parsed_assets parsed in
  let references := parsed_references parsed in
  let public := mapPublicPostWithMeta post in
  let referencesIds := distinctIds references in
  let finish (c : Json) : option (Result Json) :=
    Some (Ok (withContent public (injectAssets db assetsRefs c))) in
  if negb (Nat.eqb (List.length referencesIds) 0) && Nat.ltb debt maxDebt then
    match promiseAll (map subCompile referencesIds) with
    | None => None
    | Some (Err e) => Some (Err e)
    | Some (Ok compiled) =>
        match collectPosts compiled ∅ with
        | Err e => Some (Err e)
        | Ok postsObj => finish (injectReferences references postsObj content_)
        end
    end
  else finish content_.

(** [compilePost({ slugPath, id, allowNull }, data, debt)]. The fuel counts
    nested invocations: [None] when they do not fit in it. *)
Fixpoint compilePost (fuel : nat) (db : Db) (now : Z)
    (slugPath_ : option string) (id_ : option Z) (allowNull : bool)
    (data : option Post) (debt : nat) : option (Result Json) :=
  match fuel with
  | O => None
  | S fuel' =>
      match resolvePost db now slugPath_ id_ data with
      | NoInput => Some (Err (BadRequestError "invalid_post"))
      | NotFound =>
          Some (if allowNull then Ok JNull else Err (BadRequestError "invalid_post"))
      | Resolved post =>
          compileResolved
            (fun i => compilePost fuel' db now None (Some i) true None (S debt))
            db post debt
      end
  end.

End Controller.

(** ** The other handlers of the controller *)

Record ContentType : Type := {
  ct_id : Z;
  ct_type : string
}.

Record CreateBody : Type := {
  new_parentId : option Z;
  new_contentTypeId : option Z;
  new_type : option string;
  new_name : string;
  new_slug : string
}.

(** What [GET /posts/:postId] sends: the post, or the fields of a version
    under the id of the post. *)
Record PostView : Type := {
  view_post : Post;
  view_versionId : option Z
}.

Inductive VersionsResponse : Type :=
| VersionCount (count : nat)
| VersionList (versions : list Post).

Section Handlers.

Context `{Collaborators}.

(** *** Create: [POST /posts] *)

Definition contentTypeKinds : list string := ["post"; "page"; "fragment"].

(** [findOne(ContentType, { where: { id, type: In([...]) } })] *)
Definition findContentType (contentTypes : list ContentType) (i : Z)
  : option ContentType :=
  find (fun c => (ct_id c =? i)%Z && existsb (String.eqb (ct_type c)) contentTypeKinds)
    contentTypes.

Definition createPost (contentTypes : list ContentType) (body : CreateBody)
    (user : option Z) (db : Db) : Result Post * Db :=
  rethrowing translateUnique
    (transaction
       (parent_ <- match truthyNum (new_parentId body) with
                   | Some parentId =>
                       found <- findOne parentId ;;
                       match found with
                       | Some q => ret (Some q)
                       | None => throw (BadRequestError "invalid_parent")
                       end
                   | None => ret None
                   end ;;
        contentType_ <- match truthyNum (new_contentTypeId body) with
                        | Some contentTypeId =>
                            match findContentType contentTypes contentTypeId with
                            | Some c => ret (Some c)
                            | None => throw (BadRequestError "invalid_content_type")
                            end
                        | None => ret None
                        end ;;
        save {| id := None;
                type := match truthyString (new_type body) with
                        | Some t => t
                        | None => "post"
                        end;
                name := new_name body;
                slug := new_slug body;
                slugPath := match parent_ with
                            | Some q => slugPath q ++ "/" ++ new_slug body
                            | None => new_slug body
                            end;
                status := status columnDefaults;
                publishedAt := publishedAt columnDefaults;
                publishedFrom := publishedFrom columnDefaults;
                publishedUntil := publishedUntil columnDefaults;
                updatedAt := updatedAt columnDefaults;
                parent := parent_ ≫= id;
                contentType := ct_id <$> contentType_;
                meta := [];
                tags := [];
                author := user;
                content := content columnDefaults |})
       db).

(** *** Read one post or one of its versions: [GET /posts/:postId] *)

Definition getPost (postId : Z) (versionId : option Z) (db : Db) : Result PostView :=
  match find (hasId postId) (posts db) with
  | None => Err (BadRequestError "invalid_post")
  | Some post =>
      match versionId with
      | Some v =>
          match find (fun p => hasId v p && bool_decide (parent p = id post)) (posts db) with
          | None => Err (BadRequestError "invalid_post_version")
          | Some postVersion =>
              Ok {| view_post := set_id (id post) postVersion;
                    view_versionId := id postVersion |}
          end
      | None => Ok {| view_post := post; view_versionId := None |}
      end
  end.

(** *** The versions of a post: [GET /posts/:postId/versions]

    [createdAt] is the creation timestamp column of a row. *)

Fixpoint insertByCreatedAtDesc (createdAt : Post -> Z) (p : Post) (l : list Post)
  : list Post :=
  match l with
  | [] => [p]
  | q :: r => if (createdAt q <=? createdAt p)%Z then p :: q :: r
              else q :: insertByCreatedAtDesc createdAt p r
  end.

(** [ORDER BY post.createdAt DESC] *)
Definition orderByCreatedAtDesc (createdAt : Post -> Z) (l : list Post) : list Post :=
  fold_right (insertByCreatedAtDesc createdAt) [] l.

(** [post.parentId = :parentId AND post.type = 'post_version'] *)
Definition isVersionRow (postId : Z) (p : Post) : bool :=
  bool_decide (parent p = Some postId) && (type p =? "post_version").

Definition listVersions (createdAt : Post -> Z) (postId : Z) (count : bool) (db : Db)
  : VersionsResponse :=
  let matching := List.filter (isVersionRow postId) (posts db) in
  if count then VersionCount (List.length matching)
  else VersionList (orderByCreatedAtDesc createdAt matching).

(** *** The public content endpoint: [GET /content/*] *)

Definition compileContent (fuel : nat) (db : Db) (now : Z) (path : string)
  : option (Result Json) :=
  compilePost fuel db now (Some path) None false None 0.

(** *** Preview: [POST /posts/compile]

    [flat] is [flatten(req.body.meta)]; the route has no [id] parameter. *)

Definition flatValue (flat : list (string * string)) (k : string) : string :=
  match find (fun kv => fst kv =? k) flat with
  | Some kv => snd kv
  | None => ""
  end.

Definition previewPost (body : Post) (flat : list (string * string)) : Post :=
  let pushed :=
    map (fun kv => {| meta_id := None; key := fst kv; value := snd kv |})
      (List.filter (fun kv => negb (flatValue flat (fst kv) =? "")) flat) in
  set_meta (List.filter (fun m => negb (flatValue flat (key m) =? "")) pushed) body.

Definition compilePreview (fuel : nat) (db : Db) (now : Z) (body : Post)
    (flat : list (string * string)) : option (Result Json) :=
  compilePost fuel db now None None false (Some (previewPost body flat)) 0.

End Handlers.

(** ** Environment: [scripts/util/env.util.ts]

    [process.env] is a finite map from names to strings. *)

Definition dquote : ascii := "034"%char.

Definition hexDigit (n : nat) : ascii :=
  match n with
  | 0 => "0" | 1 => "1" | 2 => "2" | 3 => "3" | 4 => "4" | 5 => "5" | 6 => "6"
  | 7 => "7" | 8 => "8" | 9 => "9" | 10 => "a" | 11 => "b" | 12 => "c"
  | 13 => "d" | 14 => "e" | _ => "f"
  end%char.

(** The JSON spelling of one character inside a string literal. *)
Definition quoteChar (c : ascii) : string :=
  let n := nat_of_ascii c in
  if Nat.eqb n 8 then "\b"
  else if Nat.eqb n 9 then "\t"
  else if Nat.eqb n 10 then "\n"
  else if Nat.eqb n 12 then "\f"
  else if Nat.eqb n 13 then "\r"
  else if Nat.eqb n 34 then String "\" (String dquote "")
  else if Nat.eqb n 92 then "\\"
  else if Nat.ltb n 32 then
    "\u00" ++ String (hexDigit (n / 16)) (String (hexDigit (n mod 16)) "")
  else String c "".

Fixpoint quoteChars (s : string) : string :=
  match s with
  | EmptyString => ""
  | String c r => quoteChar c ++ quoteChars r
  end.

(** [JSON.stringify] of a string. *)
Definition JSON_stringify (s : string) : string :=
  String dquote (quoteChars s ++ String dquote "").

(** [envDefaults]; [databasePath] is [PathUtil.database('database.sqlite')]. *)
Definition envDefaults (databasePath : string) : list (string * string) :=
  [("TYPEORM_CONNECTION", "sqlite");
   ("TYPEORM_DATABASE", databasePath);
   ("SERVER_PORT", "4000");
   ("ADMIN_PORT", "4001");
   ("PUBLIC_API_URL", "/api");
   ("PUBLIC_ADMIN_NAME", "Burdy CMS");
   ("REQ_LIMIT", "128mb");
   ("SIGNED_COOKIE", "eK0hL1oG1bL8yL4z")].

(** [Object.keys(envDefaults).forEach(key => { if (env[key] === undefined)
    env[key] = envDefaults[key] })] *)
Definition applyDefaults (defaults : list (string * string)) (env : gmap string string)
  : gmap string string :=
  fold_left
    (fun e kv => match e !! fst kv with
                 | None => <[fst kv := snd kv]> e
                 | Some _ => e
                 end)
    defaults env.

Definition envKey (withPrefix : bool) (k : string) : string :=
  if withPrefix then "process.env." ++ k else k.

(** [_.mapKeys(env, f)]: the entries in turn, a later one replacing an
    earlier one under the same new key. *)
Definition mapKeys (f : string -> string) (env : gmap string string)
  : gmap string string :=
  fold_left (fun o kv => <[f (fst kv) := snd kv]> o) (map_to_list env) ∅.

Definition defineAllEnv (withPrefix : bool) (env : gmap string string)
  : gmap string string :=
  JSON_stringify <$> mapKeys (envKey withPrefix) env.

Definition definePublicEnv (env : gmap string string) : gmap string string :=
  filter (fun kv => startsWith "PUBLIC_" (fst kv) = true) (defineAllEnv false env).

(** ** Vocabulary of the properties *)

Section Vocabulary.

Context `{Collaborators}.

(** What a snapshot carries over from the post it is taken of. *)
Definition snapshotOf (post snap : Post) : Prop :=
  type snap = "post_version" /\
  parent snap = id post /\
  name snap = name post /\
  map (fun m => (key m, value m)) (meta snap) = map (fun m => (key m, value m)) (meta post) /\
  tags snap = tags post /\
  contentType snap = contentType post.

(** What the restored post holds, given the live post and the version. *)
Definition restored (post postVersion : Post) : Post :=
  set_name (name postVersion)
    (set_content (content postVersion)
       (set_tags (tags postVersion)
          (set_meta (updateMeta post (meta postVersion) None) post))).

Definition isVersionOf (versionId postId : Z) (p : Post) : bool :=
  hasId versionId p && bool_decide (parent p = Some postId) && (type p =? "post_version").

(** The rows the bulk update leaves behind. *)
Definition published (now : Z) (body : PublishBody) (rows : list Post) : list Post :=
  map (fun r =>
         if idIn (publishTargets body rows (List.filter (idIn (ids body)) rows)) r
         then publishSet now body r else r)
      rows.

(** The rows a bulk publish is applied to, written out: [i] is the id of a
    post [q] that one of the requested ids resolves to or, with
    [recursive], the id of a row that [findDescendants] returns for such a
    post. *)
Definition isTarget (body : PublishBody) (rows : list Post) (i : Z) : Prop :=
  exists q,
    In q rows /\ (exists j, In j (ids body) /\ id q = Some j) /\
    if recursive body
    then exists d, In d (findDescendants rows q) /\ id d = Some i
    else id q = Some i.

(** The rows after the bulk path rewrite. *)
Definition renamed (oldPath newPath : string) (rows : list Post) : list Post :=
  map (fun r => if inSubtree oldPath (slugPath r)
                then set_slugPath (replacePrefix oldPath newPath (slugPath r)) r
                else r)
      rows.

(** The path a post takes under its new slug. *)
Definition newPathFor (rows : list Post) (post : Post) (newSlug : string) : string :=
  match parentOf rows post with
  | Some q => slugPath q ++ "/" ++ newSlug
  | None => newSlug
  end.

(** The post [updatePost] saves. *)
Definition edited (now : Z) (body : UpdateBody) (db : Db) (post : Post) : Post :=
  let post1 := match truthyString (upd_slug body) with
               | Some newSlug =>
                   set_slugPath (newPathFor (posts db) post newSlug) (set_slug newSlug post)
               | None => post
               end in
  let post2 := match truthyString (upd_name body) with
               | Some newName => set_name newName post1
               | None => post1
               end in
  let post3 := match upd_tags body with
               | Some refs =>
                   set_tags (List.filter (fun t => existsb (Z.eqb t) (omap truthyNum refs))
                               (tagTable db)) post2
               | None => post2
               end in
  set_updatedAt (Some now) post3.

Definition afterQuery (body : UpdateBody) (db : Db) (post : Post) (rows : list Post)
  : list Post :=
  match truthyString (upd_slug body) with
  | Some newSlug => renamed (slugPath post) (newPathFor (posts db) post newSlug) rows
  | None => rows
  end.

(** [rows] holds the rows of [rows0], by id and in order, and after them
    one more row, which is a snapshot of [post]. *)
Definition oneSnapshotAdded (post : Post) (rows0 rows : list Post) : Prop :=
  exists rows' snap',
    rows = (rows' ++ [snap'])%list /\
    map id rows' = map id rows0 /\
    id snap' = Some (nextId rows0) /\
    snapshotOf post snap'.

(** The snapshot is taken of the post as the handler found it, on the
    store as the handler found it, and only appends its row there; the
    table the handler leaves has exactly that one row more. *)
Definition snapshotFirst (postId : Z) (user : option Z) (uuids : string * string)
    (db db' : Db) : Prop :=
  exists post snap,
    find (hasId postId) (posts db) = Some post /\
    createPostVersion post user uuids db = Ok (snap, set_posts (posts db ++ [snap]) db) /\
    (forall r, In r (posts db) -> id r <> Some (nextId (posts db))) /\
    oneSnapshotAdded post (posts db) (posts db').

End Vocabulary.

(** ** Vocabulary of the further properties *)

Section FurtherVocabulary.

Context `{Collaborators}.

(** What one call of [compilePost] can yield, by how its post resolves. *)
Definition outcomeOf (resolution : Resolution) (allowNull : bool) (r : Result Json)
  : Prop :=
  match resolution with
  | NoInput => r = Err (BadRequestError "invalid_post")
  | NotFound => r = if allowNull then Ok JNull else Err (BadRequestError "invalid_post")
  | Resolved _ => (exists fields, r = Ok (JObj fields)) \/ (exists msg, r = Err (TypeError msg))
  end.

(** A key of word characters that [baseSet] does not refuse: lodash takes
    it as a path of one step and assigns it. *)
Definition plainKey (k : string) : Prop :=
  isPlainProp k = true /\ refusedKey k = false.

(** The fields a copy takes from the node it copies; the root of the copy
    takes its name and slug from the request. *)
Definition copiedFrom (parent_ : option Post) (body : CopyBody) (user : option Z)
    (sourcePost child copy : Post) : Prop :=
  type copy = type child /\
  name copy = (if sameId sourcePost child then copy_name body else name child) /\
  slug copy = (if sameId sourcePost child then copy_slug body else slug child) /\
  slugPath copy = getSlugPath parent_ (copy_slug body) sourcePost child /\
  contentType copy = contentType child /\
  map (fun m => (key m, value m)) (meta copy) = map (fun m => (key m, value m)) (meta child) /\
  author copy = user.

(** Each new row takes the next id of the sequence. *)
Fixpoint appendedTo (rows news : list Post) : Prop :=
  match news with
  | [] => True
  | c :: rest => id c = Some (nextId rows) /\ appendedTo (rows ++ [c]) rest
  end.

(** The rows the recursive copy selects, in the order it copies them. *)
Definition copySelection (sourcePost : Post) (rows : list Post) : list Post :=
  orderBySlugPath
    (List.filter
       (fun p => existsb (String.eqb (type p)) copyTypes
                 && ((slugPath p =? slugPath sourcePost)
                     || like (slugPath p) (slugPath sourcePost ++ "/%")))
       rows).

(** The path of the root of a copy: the slug of the request under the path
    of the destination parent, when there is one. *)
Definition copyRoot (body : CopyBody) (db : Db) : string :=
  match truthyNum (copy_parentId body) ≫= (fun i => find (hasId i) (posts db)) with
  | Some q => slugPath q ++ "/" ++ copy_slug body
  | None => copy_slug body
  end.

(** A segment holds no slash. *)
Definition slashless (s : string) : Prop :=
  Forall (fun c => c <> slash) (list_ascii_of_string s).

(** The meta rows a content update hands to [updateMeta]. *)
Definition contentMetas (flat : list (string * string)) : list Meta :=
  map (fun kv => {| meta_id := None; key := "content." ++ fst kv; value := snd kv |}) flat.

(** [a] may stand before [b] in a list ordered by [createdAt DESC]. *)
Definition newestFirst (createdAt : Post -> Z) (a b : Post) : Prop :=
  (createdAt b <= createdAt a)%Z.

End FurtherVocabulary.

(** ** A reference implementation of the collaborators

    Used to run the handlers on concrete stores. Content lives in the meta
    rows: the key is the content path, the value [post:7] is a link to post
    7, [asset:3] a link to asset 3, anything else a plain string. *)

Definition linkTarget (tag v : string) : option Z :=
  if startsWith tag v
  then Z.of_int <$> NilZero.int_of_string (slice (String.length tag) v)
  else None.

Definition linksOf (tag : string) (metas : list Meta) : list (string * option Z) :=
  omap (fun m => (fun i => (key m, Some i)) <$> linkTarget tag (value m)) metas.

Definition metaParser (p : Post) : Parsed :=
  {| parsed_content :=
       fold_left (fun c m => lodash_set c (key m) (JStr (value m))) (meta p) (JObj []);
     parsed_assets := linksOf "asset:" (meta p);
     parsed_references := linksOf "post:" (meta p) |}.

Definition publicPost (p : Post) : Json :=
  JObj [("id", match id p with Some i => JNum i | None => JUndefined end);
        ("name", JStr (name p));
        ("slugPath", JStr (slugPath p));
        ("meta", JObj [])].

Definition publicAsset (a : Asset) : Json :=
  JObj [("id", JNum (asset_id a)); ("name", JStr (asset_name a))].

(** Rows matching the pattern are replaced by the new ones. *)
Definition replaceMeta (p : Post) (metas : list Meta) (pattern : option string)
  : list Meta :=
  match pattern with
  | Some "^content" =>
      (List.filter (fun m => negb (startsWith "content" (key m))) (meta p) ++ metas)%list
  | _ => metas
  end.

(** The tree repository over the [parent] relation: the entity itself and
    every row that reaches it through [parent]. *)
Fixpoint descendsFrom (fuel : nat) (rows : list Post) (i : Z) (q : Post) : bool :=
  hasId i q ||
  match fuel with
  | O => false
  | S fuel' =>
      match parent q ≫= (fun j => find (hasId j) rows) with
      | Some q' => descendsFrom fuel' rows i q'
      | None => false
      end
  end.

Definition treeDescendants (rows : list Post) (p : Post) : list Post :=
  match id p with
  | Some i => List.filter (descendsFrom (List.length rows) rows i) rows
  | None => []
  end.

(** Modelled from the spec: descendants by path (§4.1 [findDescendants]),
    "all posts whose slugPath is post.slugPath or begins with
    post.slugPath + "/"". *)
Definition pathDescendants (rows : list Post) (p : Post) : list Post :=
  List.filter (fun q => (slugPath q =? slugPath p)
                        || startsWith (slugPath p ++ "/") (slugPath q)) rows.

(** A unique index on [slugPath]. *)
Fixpoint distinctPaths (seen : list string) (rows : list Post) : bool :=
  match rows with
  | [] => true
  | r :: rest =>
      negb (existsb (String.eqb (slugPath r)) seen)
      && distinctPaths (slugPath r :: seen) rest
  end.

Definition uniqueSlugPath (rows : list Post) : option string :=
  if distinctPaths [] rows then None else Some "23505".

Definition draftDefaults : Post :=
  {| id := None; type := "post"; name := ""; slug := ""; slugPath := "";
     status := "draft"; publishedAt := None; publishedFrom := None;
     publishedUntil := None; updatedAt := None; parent := None;
     contentType := None; meta := []; tags := []; author := None;
     content := None |}.

Definition treeStore : Collaborators :=
  {| parseContent := metaParser;
     mapPublicPostWithMeta := publicPost;
     mapPublicAsset := publicAsset;
     updateMeta := replaceMeta;
     findDescendants := treeDescendants;
     like := LIKE;
     violation := uniqueSlugPath;
     columnDefaults := draftDefaults |}.

Definition pathStore : Collaborators :=
  {| parseContent := metaParser;
     mapPublicPostWithMeta := publicPost;
     mapPublicAsset := publicAsset;
     updateMeta := replaceMeta;
     findDescendants := pathDescendants;
     like := LIKE;
     violation := uniqueSlugPath;
     columnDefaults := draftDefaults |}.

(** A row for the examples. *)
Definition row (i : Z) (type_ slug_ slugPath_ status_ : string) (parent_ : option Z)
    (metas : list (string * string)) : Post :=
  {| id := Some i; type := type_; name := slug_; slug := slug_;
     slugPath := slugPath_; status := status_; publishedAt := None;
     publishedFrom := None; publishedUntil := None; updatedAt := None;
     parent := parent_; contentType := None;
     meta := map (fun kv => {| meta_id := None; key := fst kv; value := snd kv |}) metas;
     tags := []; author := None; content := None |}.

(** Three published posts whose links form the cycle 1 → 2 → 3 → 1. *)
Definition cycleDb : Db :=
  {| posts := [row 1 "page" "a" "a" "published" None [("next", "post:2")];
               row 2 "page" "b" "b" "published" None [("next", "post:3")];
               row 3 "page" "c" "c" "published" None [("next", "post:1")]];
     tagTable := [];
     assetTable := [] |}.

(** A post scheduled for tomorrow is not visible today. *)
Definition scheduled : Post :=
  {| id := Some 1%Z; type := "page"; name := "n"; slug := "s"; slugPath := "s";
     status := "published"; publishedAt := Some 0%Z; publishedFrom := Some 200%Z;
     publishedUntil := None; updatedAt := None; parent := None;
     contentType := None; meta := []; tags := []; author := None;
     content := None |}.

(** Post 1 is published and links to post 9, which does not exist; post 3
    is published and links to post 2, which is a draft. *)
Definition brokenDb : Db :=
  {| posts := [row 1 "page" "a" "a" "published" None [("hero", "post:9")];
               row 2 "page" "b" "b" "draft" None [];
               row 3 "page" "c" "c" "published" None [("teaser", "post:2")]];
     tagTable := [];
     assetTable := [] |}.

(** A small site: the folder [a], the page [a/b] in it with one version
    (row 5), the page [a/b/c] below, and the unrelated page [ab]. *)
Definition siteDb : Db :=
  {| posts := [row 1 "folder" "a" "a" "draft" None [];
               row 2 "page" "b" "a/b" "draft" (Some 1%Z) [("content.title", "Hello")];
               row 3 "page" "c" "a/b/c" "draft" (Some 2%Z) [];
               row 4 "page" "ab" "ab" "draft" None [];
               row 5 "post_version" "6f9619ff" "8b0d4c1a" "draft" (Some 2%Z)
                 [("content.title", "Old")]];
     tagTable := [10%Z; 11%Z];
     assetTable := [] |}.

Definition renameBody : UpdateBody :=
  {| upd_slug := Some "x"; upd_name := None; upd_tags := None |}.

(** Publish post 2 and what descends from it. *)
Definition cascadeBody : PublishBody :=
  {| publish := true; recursive := true; ids := [2%Z];
     body_publishedFrom := Some 100%Z; body_publishedUntil := None |}.

(** Publish the version row itself. *)
Definition versionBody : PublishBody :=
  {| publish := true; recursive := true; ids := [5%Z];
     body_publishedFrom := None; body_publishedUntil := None |}.

(** Copy under a parent that does not exist. *)
Definition orphanCopy : CopyBody :=
  {| copy_parentId := Some 99%Z; copy_recursive := false;
     copy_name := "Copy"; copy_slug := "copy" |}.

Definition someUuids : string * string := ("3f2a", "9c1e").

(** A window that closes at 100 and opens at 200. *)
Definition inverted : Post :=
  set_publication (Some 0%Z) "published" (Some 200%Z) (Some 100%Z) None scheduled.

(** Copy one post to the root; copy a subtree to the root. *)
Definition plainCopy : CopyBody :=
  {| copy_parentId := None; copy_recursive := false;
     copy_name := "Copy"; copy_slug := "copy" |}.

Definition treeCopy : CopyBody :=
  {| copy_parentId := None; copy_recursive := true;
     copy_name := "Z"; copy_slug := "z" |}.

Definition siteTypes : list ContentType :=
  [{| ct_id := 1; ct_type := "page" |}; {| ct_id := 2; ct_type := "component" |}].

(** A new page [d] under the page [a/b]. *)
Definition newPage : CreateBody :=
  {| new_parentId := Some 2%Z; new_contentTypeId := Some 1%Z;
     new_type := Some "page"; new_name := "D"; new_slug := "d" |}.

(** Publish post 2 alone. *)
Definition singleBody : PublishBody :=
  {| publish := true; recursive := false; ids := [2%Z];
     body_publishedFrom := None; body_publishedUntil := None |}.


(** The folder [a_b] and an unrelated page [axb/c]. *)
Definition wildcardDb : Db :=
  {| posts := [row 1 "folder" "a_b" "a_b" "draft" None [];
               row 2 "page" "c" "axb/c" "draft" None []];
     tagTable := [];
     assetTable := [] |}.

(** Rename post 2, retitle it and tag it. *)
Definition retitleBody : UpdateBody :=
  {| upd_slug := Some "x"; upd_name := Some "New"; upd_tags := Some [Some 10%Z] |}.

Definition otherUuids : string * string := ("5b7d", "0e4a").

(** * Properties *)

(** ** Publish window *)

(** C5. Effective visibility: [false] unless the status is [published];
    for a published post, [false] before [publishedFrom] and after
    [publishedUntil] when these are set, [true] otherwise; an absent bound
    does not constrain its side. *)
Theorem isPostPublished_window (now : Z) (post : Post) :
  (status post <> "published" -> isPostPublished now (Some post) = false) /\
  (status post = "published" ->
   (forall from, publishedFrom post = Some from -> (now < from)%Z ->
      isPostPublished now (Some post) = false) /\
   (forall until, publishedUntil post = Some until -> (until < now)%Z ->
      isPostPublished now (Some post) = false) /\
   ((forall from, publishedFrom post = Some from -> (from <= now)%Z) ->
    (forall until, publishedUntil post = Some until -> (now <= until)%Z) ->
    isPostPublished now (Some post) = true)).
Proof.
  unfold isPostPublished, isBefore, isAfter. split.
  - intros Hs. destruct (String.eqb_spec (status post) "published"); congruence.
  - intros Hs. rewrite Hs. cbn [String.eqb Ascii.eqb]. simpl.
    repeat split.
    + intros from Hf Hlt. rewrite Hf.
      destruct (Z.ltb_spec now from); [reflexivity | lia].
    + intros till Hu Hlt. rewrite Hu.
      destruct (publishedFrom post) as [from|]; [destruct (now <? from)%Z; [reflexivity|] |];
        destruct (Z.ltb_spec till now); try reflexivity; lia.
    + intros Hfrom Huntil.
      destruct (publishedFrom post) as [from|].
      * specialize (Hfrom from eq_refl).
        destruct (Z.ltb_spec now from); [lia|].
        destruct (publishedUntil post) as [until|]; [|reflexivity].
        specialize (Huntil until eq_refl).
        destruct (Z.ltb_spec until now); [lia | reflexivity].
      * destruct (publishedUntil post) as [until|]; [|reflexivity].
        specialize (Huntil until eq_refl).
        destruct (Z.ltb_spec until now); [lia | reflexivity].
Qed.

Lemma isPostPublished_window_witness : isPostPublished 100 (Some scheduled) = false.
Proof.
  apply (proj1 (proj2 (isPostPublished_window 100 scheduled) eq_refl) 200%Z).
  - reflexivity.
  - lia.
Defined.

(** ** The reference compiler *)

Section CompilerProperties.

Context `{Collaborators}.

Lemma prop_assign_same (k : string) (v : Json) (fields : list (string * Json)) :
  prop k (assign k v fields) = v.
Proof.
  induction fields as [|[k' v'] r IH]; simpl.
  - now rewrite String.eqb_refl.
  - destruct (String.eqb_spec k' k) as [->|Hne]; simpl.
    + now rewrite String.eqb_refl.
    + destruct (String.eqb_spec k' k); [contradiction | exact IH].
Qed.

Lemma withContent_content (public content_ : Json) :
  member "content" (member "meta" (withContent public content_)) = content_.
Proof.
  unfold withContent. cbn [member].
  rewrite prop_assign_same. cbn [member]. apply prop_assign_same.
Qed.

Lemma promiseAll_defined (l : list (option (Result Json))) :
  Forall is_Some l -> is_Some (promiseAll l).
Proof.
  induction 1 as [|r rest [v ->] _ [vs IH]]; simpl.
  - eauto.
  - rewrite IH. destruct v, vs; eauto.
Qed.

(** At the ceiling the references are not touched, whatever the sub-compile
    would do. *)
Lemma compileResolved_ceiling (subCompile : Z -> option (Result Json)) (db : Db)
    (post : Post) (debt : nat) :
  maxDebt <= debt ->
  compileResolved subCompile db post debt =
  Some (Ok (withContent (mapPublicPostWithMeta post)
              (injectAssets db (parsed_assets (parseContent post))
                 (parsed_content (parseContent post))))).
Proof.
  intros Hle. unfold compileResolved.
  destruct (Nat.ltb_spec debt maxDebt); [lia|].
  now rewrite andb_false_r.
Qed.

Lemma compileResolved_ext (f g : Z -> option (Result Json)) (db : Db)
    (post : Post) (debt : nat) :
  (forall i, f i = g i) ->
  compileResolved f db post debt = compileResolved g db post debt.
Proof.
  intros Hfg. unfold compileResolved.
  now rewrite (map_ext f g Hfg).
Qed.

Lemma compileResolved_defined (f : Z -> option (Result Json)) (db : Db)
    (post : Post) (debt : nat) :
  (forall i, is_Some (f i)) -> is_Some (compileResolved f db post debt).
Proof.
  intros Hf. unfold compileResolved.
  destruct (negb _ && _); [|eauto].
  destruct (promiseAll_defined (map f (distinctIds (parsed_references (parseContent post)))))
    as [r ->].
  - apply List.Forall_forall. intros x Hx. apply in_map_iff in Hx as [i [<- _]]. apply Hf.
  - destruct r as [compiled|e]; [|eauto].
    destruct (collectPosts compiled ∅); eauto.
Qed.

(** Nested invocations at depth [debt] fit in [maxDebt - debt + 1] levels,
    and more fuel does not change what they return. *)
Lemma compilePost_settles (n : nat) :
  forall (db : Db) (now : Z) (slugPath_ : option string) (id_ : option Z)
         (allowNull : bool) (data : option Post) (debt : nat),
    maxDebt - debt < n ->
    exists r, forall fuel, n <= fuel ->
      compilePost fuel db now slugPath_ id_ allowNull data debt = Some r.
Proof.
  induction n as [|n IH]; intros db now slugPath_ id_ allowNull data debt Hn; [lia|].
  destruct (resolvePost db now slugPath_ id_ data) as [| |post] eqn:Hres.
  - eexists. intros [|fuel] Hle; [lia|]. simpl. rewrite Hres. reflexivity.
  - eexists. intros [|fuel] Hle; [lia|]. simpl. rewrite Hres. reflexivity.
  - destruct (Nat.ltb_spec debt maxDebt) as [Hlt|Hge].
    + set (sub := fun i => compilePost n db now None (Some i) true None (S debt)).
      assert (Hsub : forall fuel i, n <= fuel ->
                compilePost fuel db now None (Some i) true None (S debt) = sub i).
      { intros fuel i Hle.
        destruct (IH db now None (Some i) true None (S debt)) as [r Hr]; [lia|].
        unfold sub. rewrite (Hr fuel Hle). symmetry. apply Hr. lia. }
      destruct (compileResolved_defined sub db post debt) as [r Hr].
      { intros i. destruct (IH db now None (Some i) true None (S debt)) as [r Hr]; [lia|].
        exists r. apply Hr. lia. }
      exists r. intros [|fuel] Hle; [lia|]. simpl. rewrite Hres, <- Hr.
      apply compileResolved_ext. intros i. apply Hsub. lia.
    + eexists. intros [|fuel] Hle; [lia|]. simpl. rewrite Hres.
      now apply compileResolved_ceiling.
Qed.

(** C1. [compilePost] terminates on every store, cyclic links included:
    from depth [debt] the nested invocations fit in [maxDebt - debt + 1]
    levels and return the same result with any larger budget. The ceiling
    [maxDebt] is 3. Below it a resolved post with links starts
    sub-compiles (one level is not enough); at depth 3 or more one
    invocation answers without any sub-compile, and the content it returns
    for a resolved post is the parsed content with the asset step applied
    only, the reference markers left in place. *)
Theorem compilePost_terminates_within_ceiling
    (db : Db) (now : Z) (slugPath_ : option string) (id_ : option Z)
    (allowNull : bool) (data : option Post) (debt : nat) :
  maxDebt = 3 /\
  (exists r, forall fuel, S (maxDebt - debt) <= fuel ->
     compilePost fuel db now slugPath_ id_ allowNull data debt = Some r) /\
  (forall post, debt < maxDebt ->
   resolvePost db now slugPath_ id_ data = Resolved post ->
   distinctIds (parsed_references (parseContent post)) <> [] ->
   compilePost 1 db now slugPath_ id_ allowNull data debt = None) /\
  (maxDebt <= debt ->
   exists r, forall fuel, 1 <= fuel ->
     compilePost fuel db now slugPath_ id_ allowNull data debt = Some r) /\
  (forall post, maxDebt <= debt ->
   resolvePost db now slugPath_ id_ data = Resolved post ->
   forall fuel, 1 <= fuel ->
   exists compiled,
     compilePost fuel db now slugPath_ id_ allowNull data debt = Some (Ok compiled) /\
     member "content" (member "meta" compiled) =
       injectAssets db (parsed_assets (parseContent post))
         (parsed_content (parseContent post)) /\
     (distinctIds (parsed_assets (parseContent post)) = [] ->
      member "content" (member "meta" compiled) = parsed_content (parseContent post))).
Proof.
  split; [reflexivity|]. split; [|split; [|split]].
  - apply compilePost_settles. lia.
  - intros post Hlt Hres Hrefs. simpl. rewrite Hres. unfold compileResolved.
    destruct (distinctIds (parsed_references (parseContent post))) as [|i ids];
      [contradiction|].
    destruct (Nat.ltb_spec debt maxDebt); [|lia]. reflexivity.
  - intros Hge. apply compilePost_settles. lia.
  - intros post Hge Hres [|fuel] Hle; [lia|].
    eexists. split; [|split].
    + simpl. rewrite Hres. now apply compileResolved_ceiling.
    + apply withContent_content.
    + intros Hnone. rewrite withContent_content.
      unfold injectAssets. now rewrite Hnone.
Qed.

Lemma collectPosts_null (compiled : list Json) :
  In JNull compiled ->
  forall postsObj, exists e, collectPosts compiled postsObj = Err e.
Proof.
  induction compiled as [|v rest IH]; intros Hin postsObj; [destruct Hin|].
  destruct Hin as [->|Hin]; simpl; [eauto|].
  destruct v; eauto.
Qed.

Lemma promiseAll_values (l : list (option (Result Json))) (vs : list Json) :
  promiseAll l = Some (Ok vs) -> l = map (fun v => Some (Ok v)) vs.
Proof.
  revert vs. induction l as [|r rest IH]; intros vs Hall; simpl in Hall.
  - now inversion Hall.
  - destruct r as [[v|e]|]; [| |discriminate].
    + destruct (promiseAll rest) as [[vs'|e]|]; try discriminate.
      inversion Hall; subst. simpl. now rewrite <- (IH vs' eq_refl).
    + destruct (promiseAll rest) as [[vs'|e']|]; discriminate.
Qed.

(** C2 (the code departs from the claim). Below the ceiling, a link to a
    post that is missing or not visible makes the sub-compile return
    [null], as [allowNull] asks; building [postsObj] then reads [id] off
    that [null] and throws: the whole compilation is rejected instead of
    returning the post without the link. *)
Theorem compilePost_broken_reference (db : Db) (now : Z) (slugPath_ : option string)
    (id_ : option Z) (allowNull : bool) (data : option Post) (debt : nat)
    (post : Post) (i : Z) :
  resolvePost db now slugPath_ id_ data = Resolved post ->
  debt < maxDebt ->
  In i (distinctIds (parsed_references (parseContent post))) ->
  resolvePost db now None (Some i) None = NotFound ->
  forall fuel, S (maxDebt - debt) <= fuel ->
  exists e, compilePost fuel db now slugPath_ id_ allowNull data debt = Some (Err e).
Proof.
  intros Hres Hlt Hin Hmiss [|fuel] Hle; [lia|].
  simpl. rewrite Hres. unfold compileResolved.
  destruct (distinctIds (parsed_references (parseContent post))) as [|j ids] eqn:Hids;
    [destruct Hin|].
  destruct (Nat.ltb_spec debt maxDebt); [|lia].
  cbn [List.length Nat.eqb negb andb].
  set (sub := fun i0 => compilePost fuel db now None (Some i0) true None (S debt)).
  destruct (promiseAll_defined (map sub (j :: ids))) as [r Hr].
  { apply List.Forall_forall. intros x Hx. apply in_map_iff in Hx as [k [<- _]].
    destruct (compilePost_settles fuel db now None (Some k) true None (S debt))
      as [rk Hk]; [lia|].
    exists rk. now apply Hk. }
  rewrite Hr. destruct r as [compiled|e]; [|eauto].
  destruct (collectPosts_null compiled) with (postsObj := (∅ : gmap string Json))
    as [e He].
  - apply promiseAll_values in Hr.
    assert (Hnull : In (Some (Ok JNull)) (map sub (j :: ids))).
    { apply in_map_iff. exists i. split; [|exact Hin].
      unfold sub. destruct fuel as [|fuel]; [lia|]. simpl. now rewrite Hmiss. }
    rewrite Hr in Hnull. apply in_map_iff in Hnull as [v [Hv Hin']].
    now inversion Hv; subst.
  - rewrite He. eauto.
Qed.

End CompilerProperties.

(** In the cycle 1 → 2 → 3 → 1 the invocation for post 1 at depth 3 keeps
    the marker of its link to post 2. *)
Lemma compilePost_terminates_within_ceiling_witness :
  exists compiled,
    @compilePost treeStore 1 cycleDb 0 None (Some 1%Z) true None 3 = Some (Ok compiled) /\
    member "next" (member "content" (member "meta" compiled)) = JStr "post:2".
Proof.
  destruct (proj2 (proj2 (proj2 (proj2 (@compilePost_terminates_within_ceiling treeStore
                                          cycleDb 0%Z None (Some 1%Z) true None 3))))
              (row 1 "page" "a" "a" "published" None [("next", "post:2")])
              (le_n 3) eq_refl 1 (le_n 1))
    as [compiled [Hrun [_ Hcontent]]].
  exists compiled. split; [exact Hrun|].
  rewrite (Hcontent eq_refl). reflexivity.
Defined.

(** The full compile of the cycle from depth 0: three nested posts, and the
    fourth keeps its marker. *)
Example compilePost_cycle :
  exists compiled,
    @compilePost treeStore 4 cycleDb 0 None (Some 1%Z) false None 0 = Some (Ok compiled) /\
    getPath ["meta"; "content"; "next"; "meta"; "content"; "next";
             "meta"; "content"; "next"; "meta"; "content"; "next"] compiled
    = JStr "post:2".
Proof. eexists. split; vm_compute; reflexivity. Qed.

(** Post 1 of [brokenDb] links to a post that does not exist; post 3 links
    to a draft. Neither compiles. *)
Lemma compilePost_broken_reference_witness :
  exists e,
    @compilePost treeStore 4 brokenDb 0 None (Some 1%Z) false None 0 = Some (Err e).
Proof.
  apply (@compilePost_broken_reference treeStore brokenDb 0%Z None (Some 1%Z) false None 0
           (row 1 "page" "a" "a" "published" None [("hero", "post:9")]) 9%Z).
  - reflexivity.
  - unfold maxDebt. lia.
  - left. reflexivity.
  - reflexivity.
  - unfold maxDebt. simpl. lia.
Defined.

Example compilePost_broken_reference_rejects :
  @compilePost treeStore 4 brokenDb 0 None (Some 1%Z) false None 0
    = Some (Err (TypeError "Cannot read properties of null (reading 'id')")) /\
  @compilePost treeStore 4 brokenDb 0 None (Some 3%Z) false None 0
    = Some (Err (TypeError "Cannot read properties of null (reading 'id')")).
Proof. split; vm_compute; reflexivity. Qed.

(** ** The store *)

Section StoreProperties.

Context `{Collaborators}.

Lemma bind_Ok {A B : Type} (m : Tx A) (k : A -> Tx B) (db db' : Db) (b : B) :
  bind m k db = Ok (b, db') ->
  exists a db1, m db = Ok (a, db1) /\ k a db1 = Ok (b, db').
Proof.
  unfold bind. destruct (m db) as [[a db1]|e]; [eauto | discriminate].
Qed.

Lemma transaction_Ok {A : Type} (body : Tx A) (db db' : Db) (a : A) :
  transaction body db = (Ok a, db') -> body db = Ok (a, db').
Proof.
  unfold transaction. destruct (body db) as [[a0 db0]|e]; intros Heq; now inversion Heq.
Qed.

Lemma rethrowing_Ok {A : Type} (handler : Error -> Error) (r : Result A * Db)
    (a : A) (db' : Db) :
  rethrowing handler r = (Ok a, db') -> r = (Ok a, db').
Proof.
  destruct r as [[a0|e] db0]; simpl; intros Heq; now inversion Heq.
Qed.

Lemma write_Ok (rows : list Post) (db db' : Db) (u : unit) :
  write rows db = Ok (u, db') -> violation rows = None /\ db' = set_posts rows db.
Proof.
  unfold write. destruct (violation rows); intros Heq; [discriminate|].
  now inversion Heq.
Qed.

Lemma updateWhere_Ok (cond : Post -> bool) (set : Post -> Post) (db db' : Db) (u : unit) :
  updateWhere cond set db = Ok (u, db') ->
  db' = set_posts (map (fun r => if cond r then set r else r) (posts db)) db.
Proof.
  unfold updateWhere, bind, readPosts. intros Hw. now apply write_Ok in Hw.
Qed.

Lemma find_hasId_id (i : Z) (rows : list Post) (p : Post) :
  find (hasId i) rows = Some p -> id p = Some i.
Proof.
  intros Hfind. apply find_some in Hfind as [_ Hid]. unfold hasId in Hid.
  destruct (id p) as [j|]; [|discriminate].
  apply Z.eqb_eq in Hid. now subst.
Qed.

Lemma hasId_iff (i : Z) (p : Post) : hasId i p = true <-> id p = Some i.
Proof.
  unfold hasId. destruct (id p) as [j|]; split; intros Hx; try discriminate.
  - apply Z.eqb_eq in Hx. now subst.
  - inversion Hx. apply Z.eqb_refl.
Qed.

(** [hasId] reads the id only. *)
Lemma hasId_same_id (i : Z) (p q : Post) : id p = id q -> hasId i p = hasId i q.
Proof. unfold hasId. now intros ->. Qed.

Lemma find_hasId_map (f : Post -> Post) (i : Z) (rows : list Post) :
  (forall r, In r rows -> id (f r) = id r) ->
  find (hasId i) (map f rows) = f <$> find (hasId i) rows.
Proof.
  induction rows as [|r rows IH]; intros Hid; [reflexivity|].
  simpl. rewrite (hasId_same_id i (f r) r) by (apply Hid; now left).
  destruct (hasId i r); [reflexivity|].
  apply IH. intros r' Hin. apply Hid. now right.
Qed.

Lemma nextId_above (rows : list Post) (p : Post) (i : Z) :
  In p rows -> id p = Some i -> (i < nextId rows)%Z.
Proof.
  unfold nextId. induction rows as [|r rows IH]; intros Hin Hid; [destruct Hin|].
  simpl. destruct Hin as [->|Hin].
  - rewrite Hid. lia.
  - specialize (IH Hin Hid). destruct (id r); lia.
Qed.

Lemma find_app_l {A : Type} (f : A -> bool) (l l' : list A) (x : A) :
  find f l = Some x -> find f (l ++ l') = Some x.
Proof.
  induction l as [|y l IH]; simpl; [discriminate|].
  destruct (f y); [trivial | exact IH].
Qed.

Lemma find_app_r {A : Type} (f : A -> bool) (l l' : list A) :
  find f l = None -> find f (l ++ l') = find f l'.
Proof.
  induction l as [|y l IH]; simpl; [trivial|].
  destruct (f y); [discriminate | exact IH].
Qed.

(** A row found by its id is not the next row of the sequence. *)
Lemma found_not_next (rows : list Post) (i : Z) (p : Post) :
  find (hasId i) rows = Some p -> i <> nextId rows.
Proof.
  intros Hfind. pose proof (find_hasId_id _ _ _ Hfind) as Hid.
  apply find_some in Hfind as [Hin _].
  pose proof (nextId_above rows p i Hin Hid). lia.
Qed.

Lemma save_new_Ok (p p' : Post) (db db' : Db) :
  id p = None ->
  save p db = Ok (p', db') ->
  p' = set_id (Some (nextId (posts db))) p /\
  db' = set_posts (posts db ++ [p']) db.
Proof.
  unfold save, bind, readPosts. intros -> Hrun.
  destruct (write _ db) as [[u db1]|e] eqn:Hw; [|discriminate].
  apply write_Ok in Hw as [_ ->]. unfold ret in Hrun. now inversion Hrun.
Qed.

Lemma save_existing_Ok (p p' q : Post) (i : Z) (db db' : Db) :
  id p = Some i ->
  find (hasId i) (posts db) = Some q ->
  save p db = Ok (p', db') ->
  p' = p /\
  db' = set_posts (map (fun r => if hasId i r then p else r) (posts db)) db.
Proof.
  unfold save, bind, readPosts. intros -> -> Hrun.
  destruct (write _ db) as [[u db1]|e] eqn:Hw; [|discriminate].
  apply write_Ok in Hw as [_ ->]. unfold ret in Hrun. now inversion Hrun.
Qed.

Lemma createPostVersion_Ok (post snap : Post) (user : option Z)
    (uuids : string * string) (db db' : Db) :
  createPostVersion post user uuids db = Ok (snap, db') ->
  id snap = Some (nextId (posts db)) /\
  snapshotOf post snap /\
  db' = set_posts (posts db ++ [snap]) db.
Proof.
  unfold createPostVersion. intros Hrun.
  apply save_new_Ok in Hrun as [-> ->]; [|reflexivity].
  repeat split. simpl. rewrite map_map. reflexivity.
Qed.

End StoreProperties.

(** ** Restore *)

Section RestoreProperties.

Context `{Collaborators}.

Lemma restoreVersion_Ok (postId versionId : Z) (user : option Z)
    (uuids : string * string) (db db' : Db) (post' : Post) :
  restoreVersion postId versionId user uuids db = (Ok post', db') ->
  exists post v snap,
    find (hasId postId) (posts db) = Some post /\
    find (isVersionOf versionId postId) (posts db) = Some v /\
    createPostVersion post user uuids db = Ok (snap, set_posts (posts db ++ [snap]) db) /\
    post' = restored post v /\
    db' = set_posts (map (fun r => if hasId postId r then post' else r)
                       (posts db ++ [snap])) db.
Proof.
  unfold restoreVersion. intros Hrun. apply transaction_Ok in Hrun.
  unfold findOne, findVersion, bind at 1 2, readPosts, ret in Hrun.
  destruct (find (hasId postId) (posts db)) as [post|] eqn:Hpost; [|discriminate].
  unfold bind at 1 2 in Hrun. fold (isVersionOf versionId postId) in Hrun.
  destruct (find (isVersionOf versionId postId) (posts db)) as [v|] eqn:Hv; [|discriminate].
  apply bind_Ok in Hrun as (snap & db1 & Hsnap & Hsave).
  pose proof (createPostVersion_Ok _ _ _ _ _ _ Hsnap) as (Hid & _ & ->).
  assert (Hpid : id (restored post v) = Some postId)
    by (simpl; now apply find_hasId_id in Hpost).
  destruct (save_existing_Ok (restored post v) post' post postId
              (set_posts (posts db ++ [snap]) db) db' Hpid
              (find_app_l _ _ [snap] _ Hpost) Hsave) as [-> ->].
  exists post, v, snap. repeat split; assumption.
Qed.

Lemma find_none_all {A : Type} (f : A -> bool) (l : list A) :
  (forall x, In x l -> f x = false) -> find f l = None.
Proof.
  induction l as [|y l IH]; intros Hall; [reflexivity|].
  simpl. rewrite (Hall y) by now left. apply IH. intros x Hin. apply Hall. now right.
Qed.

Lemma find_next_none (rows : list Post) : find (hasId (nextId rows)) rows = None.
Proof.
  destruct (find (hasId (nextId rows)) rows) as [p|] eqn:Hfind; [|reflexivity].
  now apply found_not_next in Hfind.
Qed.

(** After a snapshot and the save of [post'], the row of the post is
    [post'] and the next row is the snapshot. *)
Lemma find_after_save (rows : list Post) (postId : Z) (post post' snap : Post) :
  find (hasId postId) rows = Some post ->
  id post' = Some postId ->
  id snap = Some (nextId rows) ->
  let rows' := map (fun r => if hasId postId r then post' else r) (rows ++ [snap]) in
  find (hasId postId) rows' = Some post' /\
  find (hasId (nextId rows)) rows' = Some snap /\
  (forall i, i <> postId -> i <> nextId rows -> find (hasId i) rows' = find (hasId i) rows).
Proof.
  intros Hpost Hid' Hsnap rows'. subst rows'.
  assert (Hpres : forall r, In r (rows ++ [snap]) ->
            id (if hasId postId r then post' else r) = id r).
  { intros r _. destruct (hasId postId r) eqn:Hr; [|reflexivity].
    apply hasId_iff in Hr. congruence. }
  assert (Hfresh : hasId postId snap = false).
  { destruct (hasId postId snap) eqn:Hs; [|reflexivity].
    apply hasId_iff in Hs. apply found_not_next in Hpost. congruence. }
  split; [|split].
  - rewrite find_hasId_map by exact Hpres.
    rewrite (find_app_l _ _ _ _ Hpost). simpl.
    apply find_some in Hpost as [_ ->]. reflexivity.
  - rewrite find_hasId_map by exact Hpres.
    rewrite find_app_r by apply find_next_none. simpl.
    rewrite (proj2 (hasId_iff _ _) Hsnap). simpl. now rewrite Hfresh.
  - intros i Hne Hnext. rewrite find_hasId_map by exact Hpres.
    destruct (find (hasId i) rows) as [r|] eqn:Hr.
    + rewrite (find_app_l _ _ _ _ Hr). simpl.
      destruct (hasId postId r) eqn:Hr'; [|reflexivity].
      apply hasId_iff in Hr'. apply find_hasId_id in Hr. congruence.
    + rewrite find_app_r by exact Hr. simpl.
      destruct (hasId i snap) eqn:Hs; [|reflexivity].
      apply hasId_iff in Hs. congruence.
Qed.

(** C6. Restoring version V onto post P snapshots P as it stands, then
    overwrites the tags, content and name of P with those of V and saves P.
    It fails with [invalid_post] when P does not resolve, and with
    [invalid_post_version] when no row with the id of V has P as parent and
    type [post_version]. When both resolve, the handler is the snapshot
    followed by the save of the overwritten post, and succeeds when these
    two writes do. *)
Theorem restoreVersion_restores (postId versionId : Z) (user : option Z)
    (uuids : string * string) (db : Db) :
  (find (hasId postId) (posts db) = None ->
   restoreVersion postId versionId user uuids db
   = (Err (BadRequestError "invalid_post"), db)) /\
  (forall post, find (hasId postId) (posts db) = Some post ->
   (forall v, In v (posts db) -> id v = Some versionId ->
      parent v <> Some postId \/ type v <> "post_version") ->
   restoreVersion postId versionId user uuids db
   = (Err (BadRequestError "invalid_post_version"), db)) /\
  (forall post v snap db1 post' db',
   find (hasId postId) (posts db) = Some post ->
   find (isVersionOf versionId postId) (posts db) = Some v ->
   createPostVersion post user uuids db = Ok (snap, db1) ->
   save (restored post v) db1 = Ok (post', db') ->
   restoreVersion postId versionId user uuids db = (Ok post', db')) /\
  (forall post' db',
   restoreVersion postId versionId user uuids db = (Ok post', db') ->
   exists post v snap,
     find (hasId postId) (posts db) = Some post /\
     In v (posts db) /\ id v = Some versionId /\
     parent v = Some postId /\ type v = "post_version" /\
     createPostVersion post user uuids db = Ok (snap, set_posts (posts db ++ [snap]) db) /\
     snapshotOf post snap /\
     find (hasId (nextId (posts db))) (posts db') = Some snap /\
     tags post' = tags v /\ content post' = content v /\ name post' = name v /\
     find (hasId postId) (posts db') = Some post').
Proof.
  split; [|split; [|split]].
  - intros Hnone. unfold restoreVersion, transaction, findOne, bind, readPosts, ret.
    now rewrite Hnone.
  - intros post Hpost Hbad.
    unfold restoreVersion, transaction, findOne, findVersion, bind, readPosts, ret.
    rewrite Hpost. fold (isVersionOf versionId postId).
    rewrite find_none_all; [reflexivity|].
    intros v Hin. unfold isVersionOf.
    destruct (hasId versionId v) eqn:Hid; [|reflexivity].
    apply hasId_iff in Hid. destruct (Hbad v Hin Hid) as [Hp|Ht].
    + rewrite bool_decide_eq_false_2 by exact Hp. reflexivity.
    + destruct (String.eqb_spec (type v) "post_version"); [contradiction|].
      now rewrite andb_false_r.
  - intros post v snap db1 post' db' Hpost Hv Hsnap Hsave.
    unfold restoreVersion, transaction, findOne, findVersion, bind, readPosts, ret.
    fold (isVersionOf versionId postId). rewrite Hpost, Hv, Hsnap.
    unfold restored in Hsave. now rewrite Hsave.
  - intros post' db' Hrun.
    apply restoreVersion_Ok in Hrun as (post & v & snap & Hpost & Hv & Hsnap & -> & ->).
    pose proof (createPostVersion_Ok _ _ _ _ _ _ Hsnap) as (Hid & Hof & _).
    apply find_some in Hv as [Hin Hv]. unfold isVersionOf in Hv.
    apply andb_prop in Hv as [Hv Htype]. apply andb_prop in Hv as [Hvid Hparent].
    apply hasId_iff in Hvid. apply bool_decide_eq_true_1 in Hparent.
    apply String.eqb_eq in Htype.
    assert (Hpid : id (restored post v) = Some postId)
      by (simpl; now apply find_hasId_id in Hpost).
    destruct (find_after_save _ _ _ _ _ Hpost Hpid Hid) as (Hrow & Hnext & _).
    exists post, v, snap. simpl. repeat split; try assumption; apply Hof.
Qed.

(** C10. A restore leaves the slug, the path, the status, the type, the
    parent and the publish window of the post as they were. *)
Theorem restoreVersion_frame (postId versionId : Z) (user : option Z)
    (uuids : string * string) (db db' : Db) (post' : Post) :
  restoreVersion postId versionId user uuids db = (Ok post', db') ->
  exists post,
    find (hasId postId) (posts db) = Some post /\
    find (hasId postId) (posts db') = Some post' /\
    slug post' = slug post /\
    slugPath post' = slugPath post /\
    status post' = status post /\
    type post' = type post /\
    parent post' = parent post /\
    publishedAt post' = publishedAt post /\
    publishedFrom post' = publishedFrom post /\
    publishedUntil post' = publishedUntil post.
Proof.
  intros Hrun.
  apply restoreVersion_Ok in Hrun as (post & v & snap & Hpost & Hv & Hsnap & -> & ->).
  pose proof (createPostVersion_Ok _ _ _ _ _ _ Hsnap) as (Hid & _ & _).
  assert (Hpid : id (restored post v) = Some postId)
    by (simpl; now apply find_hasId_id in Hpost).
  destruct (find_after_save _ _ _ _ _ Hpost Hpid Hid) as (Hrow & _ & _).
  exists post. simpl. repeat split; assumption.
Qed.

End RestoreProperties.

(** ** Publish and unpublish *)

Section PublishProperties.

Context `{Collaborators}.

Lemma idIn_iff (l : list Z) (p : Post) (i : Z) :
  id p = Some i -> (idIn l p = true <-> In i l).
Proof.
  intros Hid. unfold idIn. rewrite existsb_exists. split.
  - intros [j [Hin Hj]]. apply hasId_iff in Hj. congruence.
  - intros Hin. exists i. split; [exact Hin | now apply hasId_iff].
Qed.

Lemma publishSet_id (now : Z) (body : PublishBody) (p : Post) :
  id (publishSet now body p) = id p.
Proof. unfold publishSet. now destruct (publish body). Qed.

Lemma publishPosts_Ok (now : Z) (body : PublishBody) (db db' : Db) (res : list Post) :
  publishPosts now body db = (Ok res, db') ->
  db' = set_posts (published now body (posts db)) db /\
  res = List.filter (idIn (ids body)) (posts db').
Proof.
  unfold publishPosts. intros Hrun.
  apply rethrowing_Ok, transaction_Ok in Hrun.
  unfold findByIds at 1, bind at 1 2, readPosts at 1, ret at 1 in Hrun.
  destruct (List.filter (idIn (ids body)) (posts db)) as [|p0 found] eqn:Hfound;
    [discriminate|].
  unfold bind at 1, readPosts at 1 in Hrun.
  apply bind_Ok in Hrun as (u & db1 & Hupd & Hread).
  apply updateWhere_Ok in Hupd. subst db1.
  unfold findByIds, bind, readPosts, ret in Hread. inversion Hread; subst.
  unfold published. rewrite Hfound. split; reflexivity.
Qed.

Lemma find_published (now : Z) (body : PublishBody) (rows : list Post) (i : Z) :
  find (hasId i) (published now body rows)
  = (fun r => if idIn (publishTargets body rows (List.filter (idIn (ids body)) rows)) r
              then publishSet now body r else r) <$> find (hasId i) rows.
Proof.
  unfold published. apply find_hasId_map.
  intros r _. destruct (idIn _ r); [apply publishSet_id | reflexivity].
Qed.

Lemma idsOf_In (l : list Post) (i : Z) :
  In i (idsOf l) <-> exists r, In r l /\ id r = Some i.
Proof.
  unfold idsOf. induction l as [|a l IH]; simpl.
  - split; [tauto | intros (r & [] & _)].
  - destruct (id a) as [j|] eqn:Ha; simpl; rewrite IH; split.
    + intros [->|(r & Hin & Hr)]; eauto.
    + intros (r & [->|Hin] & Hr); [left; congruence | eauto].
    + intros (r & Hin & Hr). eauto.
    + intros (r & [->|Hin] & Hr); [congruence | eauto].
Qed.

Lemma publishTargets_iff (body : PublishBody) (rows : list Post) (i : Z) :
  In i (publishTargets body rows (List.filter (idIn (ids body)) rows))
  <-> isTarget body rows i.
Proof.
  unfold publishTargets, isTarget.
  assert (Hfound : forall q, In q (List.filter (idIn (ids body)) rows) <->
                             In q rows /\ exists j, In j (ids body) /\ id q = Some j).
  { intros q. rewrite filter_In. unfold idIn. rewrite existsb_exists.
    split; intros [Hq [j [Hj Hid]]]; (split; [exact Hq|]); exists j;
      (split; [exact Hj|]); now apply hasId_iff. }
  destruct (recursive body); rewrite idsOf_In.
  - split.
    + intros (d & Hd & Hid). apply in_concat in Hd as (l & Hl & Hd).
      apply in_map_iff in Hl as (q & <- & Hq). apply Hfound in Hq as [Hq Hj].
      exists q. split; [exact Hq|]. split; [exact Hj|]. eauto.
    + intros (q & Hq & Hj & d & Hd & Hid). exists d. split; [|exact Hid].
      apply in_concat. exists (findDescendants rows q). split; [|exact Hd].
      apply in_map. apply Hfound. auto.
  - split.
    + intros (q & Hq & Hid). apply Hfound in Hq as [Hq Hj]. exists q. auto.
    + intros (q & Hq & Hj & Hid). exists q. split; [|exact Hid]. apply Hfound. auto.
Qed.

(** C9. A bulk publish whose ids resolve to no post fails with
    [invalid_ids]. Otherwise every targeted post (a post that a requested
    id resolves to or, with [recursive], a row that [findDescendants]
    returns for such a post) gets [updatedAt = now]; publishing sets
    [status = published], [publishedAt = now] and the window of the
    request (null where the request gives none); unpublishing sets
    [status = draft] and clears [publishedAt] and the window. In
    particular, without [recursive] every stored post whose id the request
    names is set. The response is the posts read again by the requested
    ids. The operation goes through whenever some id resolves and the
    store accepts the update. *)
Theorem publishPosts_sets_state (now : Z) (body : PublishBody) (db : Db) :
  (List.filter (idIn (ids body)) (posts db) = [] ->
   publishPosts now body db = (Err (BadRequestError "invalid_ids"), db)) /\
  (List.filter (idIn (ids body)) (posts db) <> [] ->
   violation (published now body (posts db)) = None ->
   publishPosts now body db
   = (Ok (List.filter (idIn (ids body)) (published now body (posts db))),
      set_posts (published now body (posts db)) db)) /\
  (forall res db',
   publishPosts now body db = (Ok res, db') ->
   res = List.filter (idIn (ids body)) (posts db') /\
   forall i p,
     find (hasId i) (posts db) = Some p ->
     isTarget body (posts db) i ->
     exists p',
       find (hasId i) (posts db') = Some p' /\
       updatedAt p' = Some now /\
       (publish body = true ->
        status p' = "published" /\ publishedAt p' = Some now /\
        publishedFrom p' = truthyNum (body_publishedFrom body) /\
        publishedUntil p' = truthyNum (body_publishedUntil body)) /\
       (publish body = false ->
        status p' = "draft" /\ publishedAt p' = None /\
        publishedFrom p' = None /\ publishedUntil p' = None)) /\
  (forall res db',
   publishPosts now body db = (Ok res, db') ->
   recursive body = false ->
   forall i p,
     find (hasId i) (posts db) = Some p ->
     In i (ids body) ->
     exists p',
       find (hasId i) (posts db') = Some p' /\
       updatedAt p' = Some now /\
       status p' = (if publish body then "published" else "draft") /\
       publishedAt p' = (if publish body then Some now else None)).
Proof.
  split; [|split; [|split]].
  - intros Hnone. unfold publishPosts, transaction, findByIds, bind, readPosts, ret.
    now rewrite Hnone.
  - intros Hsome Hok. unfold published in *.
    unfold publishPosts, transaction, findByIds, updateWhere, write, bind, readPosts, ret.
    destruct (List.filter (idIn (ids body)) (posts db)) as [|p0 found] eqn:Hfound;
      [contradiction|].
    now rewrite Hok.
  - intros res db' Hrun. apply publishPosts_Ok in Hrun as [-> ->].
    split; [reflexivity|].
    intros i p Hfind Hin. apply publishTargets_iff in Hin.
    simpl. rewrite find_published, Hfind. simpl.
    rewrite (proj2 (idIn_iff _ p i (find_hasId_id _ _ _ Hfind)) Hin).
    eexists. split; [reflexivity|].
    unfold publishSet. destruct (publish body); simpl; repeat split; congruence.
  - intros res db' Hrun Hplain i p Hfind Hin. apply publishPosts_Ok in Hrun as [-> _].
    assert (Htarget : isTarget body (posts db) i).
    { pose proof (find_hasId_id _ _ _ Hfind) as Hid.
      apply find_some in Hfind as [Hp _].
      exists p. split; [exact Hp|]. split; [eauto|]. now rewrite Hplain. }
    apply publishTargets_iff in Htarget.
    simpl. rewrite find_published, Hfind. simpl.
    rewrite (proj2 (idIn_iff _ p i (find_hasId_id _ _ _ Hfind)) Htarget).
    eexists. split; [reflexivity|].
    unfold publishSet. destruct (publish body); simpl; repeat split; reflexivity.
Qed.

(** C4, as the code has it. The publish query selects by id alone: after a
    successful publish every row whose id is a target (the id of a post a
    requested id resolves to or, with [recursive], of a row that
    [findDescendants] returns for such a post) is [published] whatever its
    type, [post_version] included, and every other row is left as it was.
    In particular a stored row whose id the request names is published
    without [recursive], a [post_version] like any other. *)
Theorem publishPosts_ignores_type (now : Z) (body : PublishBody) (db db' : Db)
    (res : list Post) :
  publish body = true ->
  publishPosts now body db = (Ok res, db') ->
  forall i p,
    find (hasId i) (posts db) = Some p ->
    (isTarget body (posts db) i ->
     exists p', find (hasId i) (posts db') = Some p' /\
                status p' = "published" /\ type p' = type p) /\
    (~ isTarget body (posts db) i ->
     find (hasId i) (posts db') = Some p) /\
    (recursive body = false -> In i (ids body) ->
     exists p', find (hasId i) (posts db') = Some p' /\
                status p' = "published" /\ type p' = type p).
Proof.
  intros Hpub Hrun i p Hfind. apply publishPosts_Ok in Hrun as [-> _].
  simpl. rewrite find_published, Hfind. simpl.
  pose proof (idIn_iff (publishTargets body (posts db)
                          (List.filter (idIn (ids body)) (posts db)))
                p i (find_hasId_id _ _ _ Hfind)) as Hiff.
  rewrite publishTargets_iff in Hiff.
  assert (Hset : isTarget body (posts db) i ->
                 exists p',
                   Some (if idIn (publishTargets body (posts db)
                                    (List.filter (idIn (ids body)) (posts db))) p
                         then publishSet now body p else p) = Some p' /\
                   status p' = "published" /\ type p' = type p).
  { intros Hin. rewrite (proj2 Hiff Hin). eexists. split; [reflexivity|].
    unfold publishSet. rewrite Hpub. split; reflexivity. }
  split; [exact Hset|]. split.
  - intros Hout. destruct (idIn _ p) eqn:Hp; [|reflexivity].
    exfalso. apply Hout, Hiff. reflexivity.
  - intros Hplain Hin. apply Hset.
    pose proof (find_hasId_id _ _ _ Hfind) as Hid.
    apply find_some in Hfind as [Hp _].
    exists p. split; [exact Hp|]. split; [eauto|]. now rewrite Hplain.
Qed.

End PublishProperties.

(** ** Copy *)

Section CopyProperties.

Context `{Collaborators}.

(** C3 (the code departs from the claim). The handler throws
    [invalid_parent] and [invalid_source] inside the [try] whose [catch]
    rethrows every error as [duplicate_slug]: whatever makes the copy fail,
    the caller is told [duplicate_slug]. *)
Theorem copyPost_reports_duplicate_slug (postId : Z) (body : CopyBody)
    (user : option Z) (db : Db) :
  (forall e db', copyPost postId body user db = (Err e, db') ->
     e = BadRequestError "duplicate_slug" /\ db' = db) /\
  (forall parentId,
     truthyNum (copy_parentId body) = Some parentId ->
     find (hasId parentId) (posts db) = None ->
     copyPost postId body user db = (Err (BadRequestError "duplicate_slug"), db)) /\
  (find (hasId postId) (posts db) = None ->
   copyPost postId body user db = (Err (BadRequestError "duplicate_slug"), db)).
Proof.
  unfold copyPost. split; [|split].
  - intros e db'. unfold rethrowing, transaction.
    match goal with |- context [match ?b db with _ => _ end] => destruct (b db) as [[a d]|e0] end;
      intros Heq; inversion Heq; now subst.
  - intros parentId Hparent Hnone.
    unfold transaction, findOne, bind, readPosts, ret, throw.
    rewrite Hparent, Hnone. reflexivity.
  - intros Hnone.
    unfold transaction, findOne, bind, readPosts, ret, throw.
    destruct (truthyNum (copy_parentId body)) as [parentId|].
    + destruct (find (hasId parentId) (posts db)); [|reflexivity].
      now rewrite Hnone.
    + now rewrite Hnone.
Qed.

End CopyProperties.

(** ** Paths *)

Lemma append_empty_r (s : string) : s ++ "" = s.
Proof. induction s as [|c s IH]; simpl; [reflexivity | now rewrite IH]. Qed.

Lemma append_assoc (s t u : string) : (s ++ t) ++ u = s ++ t ++ u.
Proof. induction s as [|c s IH]; simpl; [reflexivity | now rewrite IH]. Qed.

Lemma startsWith_append (p rest : string) : startsWith p (p ++ rest) = true.
Proof.
  unfold startsWith. induction p as [|c p IH]; simpl.
  - now destruct rest.
  - destruct (ascii_dec c c); [exact IH | contradiction].
Qed.

Lemma startsWith_split (p s : string) :
  startsWith p s = true -> exists rest, s = p ++ rest.
Proof.
  unfold startsWith. revert s. induction p as [|c p IH]; intros s Hp.
  - exists s. reflexivity.
  - destruct s as [|d s]; simpl in Hp; [discriminate|].
    destruct (ascii_dec c d) as [->|]; [|discriminate].
    destruct (IH s Hp) as [rest ->]. exists rest. reflexivity.
Qed.

Lemma substring_all (s : string) : substring 0 (String.length s) s = s.
Proof. induction s as [|c s IH]; simpl; [reflexivity | now rewrite IH]. Qed.

Lemma slice_append (p suffix : string) : slice (String.length p) (p ++ suffix) = suffix.
Proof.
  unfold slice. induction p as [|c p IH]; simpl.
  - rewrite Nat.sub_0_r. apply substring_all.
  - exact IH.
Qed.

Lemma replacePrefix_append (oldPath newPath suffix : string) :
  replacePrefix oldPath newPath (oldPath ++ suffix) = newPath ++ suffix.
Proof. unfold replacePrefix. now rewrite slice_append. Qed.

(** A path lies in the subtree of [oldPath] when it is [oldPath] followed
    by nothing or by a slash and more. *)
Lemma inSubtree_iff (oldPath path : string) :
  inSubtree oldPath path = true <->
  exists suffix, path = oldPath ++ suffix /\
                 (suffix = "" \/ exists rest, suffix = "/" ++ rest).
Proof.
  unfold inSubtree. rewrite orb_true_iff. split.
  - intros [Heq|Hpre].
    + apply String.eqb_eq in Heq. exists "". rewrite append_empty_r. auto.
    + apply startsWith_split in Hpre as [rest ->].
      exists ("/" ++ rest). rewrite append_assoc. eauto.
  - intros [suffix [-> [->|[rest ->]]]].
    + left. rewrite append_empty_r. apply String.eqb_refl.
    + right. rewrite <- append_assoc. apply startsWith_append.
Qed.

(** ** Edits of a live post *)

Section EditProperties.

Context `{Collaborators}.

Lemma find_renamed (oldPath newPath : string) (rows : list Post) (i : Z) :
  find (hasId i) (renamed oldPath newPath rows)
  = (fun r => if inSubtree oldPath (slugPath r)
              then set_slugPath (replacePrefix oldPath newPath (slugPath r)) r
              else r) <$> find (hasId i) rows.
Proof.
  unfold renamed. apply find_hasId_map.
  intros r _. now destruct (inSubtree oldPath (slugPath r)).
Qed.

Lemma edited_id (now : Z) (body : UpdateBody) (db : Db) (post : Post) :
  id (edited now body db post) = id post.
Proof.
  unfold edited.
  destruct (truthyString (upd_slug body)), (truthyString (upd_name body)),
    (upd_tags body); reflexivity.
Qed.

Lemma updatePost_Ok (now postId : Z) (body : UpdateBody) (user : option Z)
    (uuids : string * string) (db db' : Db) (post' : Post) :
  updatePost now postId body user uuids db = (Ok post', db') ->
  exists post snap,
    find (hasId postId) (posts db) = Some post /\
    type post <> "post_version" /\
    createPostVersion post user uuids db = Ok (snap, set_posts (posts db ++ [snap]) db) /\
    post' = edited now body db post /\
    db' = set_posts (map (fun r => if hasId postId r then post' else r)
                       (afterQuery body db post (posts db ++ [snap]))) db.
Proof.
  unfold updatePost. intros Hrun.
  apply rethrowing_Ok, transaction_Ok in Hrun.
  apply bind_Ok in Hrun as (found & db0 & Hfind & Hrun).
  unfold findOne, bind, readPosts, ret in Hfind. inversion Hfind; subst found db0.
  clear Hfind.
  apply bind_Ok in Hrun as (loaded & db0 & Hread & Hrun).
  unfold readPosts in Hread. inversion Hread; subst loaded db0. clear Hread.
  destruct (find (hasId postId) (posts db)) as [post|] eqn:Hpost; [|discriminate].
  destruct (String.eqb_spec (type post) "post_version") as [|Htype]; [discriminate|].
  apply bind_Ok in Hrun as (snap & db1 & Hsnap & Hrun).
  pose proof (createPostVersion_Ok _ _ _ _ _ _ Hsnap) as (Hid & _ & ->).
  apply bind_Ok in Hrun as (post1 & db2 & Hquery & Hrun).
  apply bind_Ok in Hrun as (post3 & db3 & Htags & Hsave).
  assert (Hq : post1 = match truthyString (upd_slug body) with
                       | Some newSlug =>
                           set_slugPath (newPathFor (posts db) post newSlug)
                             (set_slug newSlug post)
                       | None => post
                       end /\
               db2 = set_posts (afterQuery body db post (posts db ++ [snap])) db).
  { unfold afterQuery. destruct (truthyString (upd_slug body)) as [newSlug|].
    - apply bind_Ok in Hquery as (u & db2' & Hupd & Hret).
      unfold getReplaceChildrenQuery in Hupd. apply updateWhere_Ok in Hupd.
      unfold ret in Hret. inversion Hret; subst. split; reflexivity.
    - unfold ret in Hquery. inversion Hquery; subst. now destruct db. }
  destruct Hq as [-> ->].
  assert (Ht : set_updatedAt (Some now) post3 = edited now body db post /\
               db3 = set_posts (afterQuery body db post (posts db ++ [snap])) db).
  { unfold edited. destruct (upd_tags body) as [refs|].
    - apply bind_Ok in Htags as (found_tags & db3' & Hfound & Hret).
      unfold findTags in Hfound. inversion Hfound; subst.
      unfold ret in Hret. inversion Hret; subst. split; reflexivity.
    - unfold ret in Htags. inversion Htags; subst. split; reflexivity. }
  destruct Ht as [Hedit ->]. rewrite Hedit in Hsave.
  assert (Hpid : id (edited now body db post) = Some postId).
  { rewrite edited_id. now apply find_hasId_id in Hpost. }
  assert (Hrow : exists q, find (hasId postId)
                   (posts (set_posts (afterQuery body db post (posts db ++ [snap])) db))
                 = Some q).
  { simpl. unfold afterQuery. destruct (truthyString (upd_slug body)).
    - rewrite find_renamed, (find_app_l _ _ _ _ Hpost). simpl. eauto.
    - rewrite (find_app_l _ _ _ _ Hpost). eauto. }
  destruct Hrow as [q Hrow].
  destruct (save_existing_Ok _ _ _ _ _ _ Hpid Hrow Hsave) as [-> ->].
  exists post, snap. repeat split; try assumption.
Qed.

Lemma updateContent_Ok (now postId : Z) (flat : list (string * string))
    (user : option Z) (uuids : string * string) (db db' : Db) (post' : Post) :
  updateContent now postId flat user uuids db = (Ok post', db') ->
  exists post snap,
    find (hasId postId) (posts db) = Some post /\
    createPostVersion post user uuids db = Ok (snap, set_posts (posts db ++ [snap]) db) /\
    id post' = Some postId /\
    db' = set_posts (map (fun r => if hasId postId r then post' else r)
                       (posts db ++ [snap])) db.
Proof.
  unfold updateContent. intros Hrun.
  apply rethrowing_Ok, transaction_Ok in Hrun.
  apply bind_Ok in Hrun as (found & db0 & Hfind & Hrun).
  unfold findOne, bind, readPosts, ret in Hfind. inversion Hfind; subst found db0.
  clear Hfind.
  destruct (find (hasId postId) (posts db)) as [post|] eqn:Hpost; [|discriminate].
  apply bind_Ok in Hrun as (snap & db1 & Hsnap & Hsave).
  pose proof (createPostVersion_Ok _ _ _ _ _ _ Hsnap) as (Hid & _ & ->).
  match type of Hsave with save ?p _ = _ =>
    assert (Hpid : id p = Some postId) by (simpl; now apply find_hasId_id in Hpost);
    destruct (save_existing_Ok p post' post postId
                (set_posts (posts db ++ [snap]) db) db' Hpid
                (find_app_l _ _ [snap] _ Hpost) Hsave) as [-> ->]
  end.
  exists post, snap. repeat split; assumption.
Qed.

Lemma oneSnapshotAdded_init (post snap : Post) (rows0 : list Post) :
  id snap = Some (nextId rows0) -> snapshotOf post snap ->
  oneSnapshotAdded post rows0 (rows0 ++ [snap]).
Proof. intros Hid Hof. exists rows0, snap. auto. Qed.

Lemma oneSnapshotAdded_map (g : Post -> Post) (post : Post) (rows0 rows : list Post) :
  oneSnapshotAdded post rows0 rows ->
  (forall r, id (g r) = id r) ->
  (forall r, id r = Some (nextId rows0) -> snapshotOf post r -> snapshotOf post (g r)) ->
  oneSnapshotAdded post rows0 (map g rows).
Proof.
  intros (rows' & snap' & -> & Hids & Hid & Hof) Hg Hsnap.
  exists (map g rows'), (g snap'). rewrite map_app.
  split; [reflexivity|]. split; [|split].
  - rewrite map_map, <- Hids. apply map_ext. exact Hg.
  - now rewrite Hg.
  - apply (Hsnap snap' Hid Hof).
Qed.

Lemma fresh_next (rows : list Post) (r : Post) :
  In r rows -> id r <> Some (nextId rows).
Proof.
  intros Hin Hid. pose proof (nextId_above rows r _ Hin Hid). lia.
Qed.

(** Saving a post that is in the table keeps the one-row extension. *)
Lemma oneSnapshotAdded_save (post p q : Post) (postId : Z) (rows0 rows : list Post) :
  find (hasId postId) rows0 = Some q ->
  id p = Some postId ->
  oneSnapshotAdded post rows0 rows ->
  oneSnapshotAdded post rows0 (map (fun r => if hasId postId r then p else r) rows).
Proof.
  intros Hq Hp Hadded. apply oneSnapshotAdded_map; [exact Hadded | |].
  - intros r. destruct (hasId postId r) eqn:Hr; [|reflexivity].
    apply hasId_iff in Hr. congruence.
  - intros r Hr Hof. destruct (hasId postId r) eqn:Hr'; [|exact Hof].
    apply hasId_iff in Hr'. apply found_not_next in Hq. congruence.
Qed.

(** C7. Each edit of a live post (content update, slug/name/tag update,
    restore) that goes through takes the snapshot first, of the post as it
    was stored, without changing any existing row; the table it leaves has
    the rows it found, by id, and exactly one more: a [post_version] whose
    parent is the post, with the name, meta pairs, tags and content type
    the post had before the edit. *)
Theorem edits_snapshot_first (now postId versionId : Z) (body : UpdateBody)
    (flat : list (string * string)) (user : option Z) (uuids : string * string)
    (db : Db) :
  (forall post' db',
     updateContent now postId flat user uuids db = (Ok post', db') ->
     snapshotFirst postId user uuids db db') /\
  (forall post' db',
     updatePost now postId body user uuids db = (Ok post', db') ->
     snapshotFirst postId user uuids db db') /\
  (forall post' db',
     restoreVersion postId versionId user uuids db = (Ok post', db') ->
     snapshotFirst postId user uuids db db').
Proof.
  split; [|split]; intros post' db' Hrun.
  - apply updateContent_Ok in Hrun as (post & snap & Hpost & Hsnap & Hpid & ->).
    pose proof (createPostVersion_Ok _ _ _ _ _ _ Hsnap) as (Hid & Hof & _).
    exists post, snap. repeat split; try assumption.
    + intros r. apply fresh_next.
    + simpl. eapply oneSnapshotAdded_save; eauto using oneSnapshotAdded_init.
  - apply updatePost_Ok in Hrun as (post & snap & Hpost & _ & Hsnap & -> & ->).
    pose proof (createPostVersion_Ok _ _ _ _ _ _ Hsnap) as (Hid & Hof & _).
    exists post, snap. repeat split; try assumption.
    + intros r. apply fresh_next.
    + simpl. eapply oneSnapshotAdded_save; [exact Hpost | |].
      * rewrite edited_id. now apply find_hasId_id in Hpost.
      * unfold afterQuery. destruct (truthyString (upd_slug body)).
        -- apply oneSnapshotAdded_map; [now apply oneSnapshotAdded_init | |].
           ++ intros r. now destruct (inSubtree _ _).
           ++ intros r _ Hr. now destruct (inSubtree _ _).
        -- now apply oneSnapshotAdded_init.
  - apply restoreVersion_Ok in Hrun as (post & v & snap & Hpost & _ & Hsnap & -> & ->).
    pose proof (createPostVersion_Ok _ _ _ _ _ _ Hsnap) as (Hid & Hof & _).
    exists post, snap. repeat split; try assumption.
    + intros r. apply fresh_next.
    + simpl. eapply oneSnapshotAdded_save; eauto using oneSnapshotAdded_init.
      simpl. now apply find_hasId_id in Hpost.
Qed.

Lemma find_replace (rows : list Post) (postId i : Z) (p : Post) :
  id p = Some postId ->
  find (hasId i) (map (fun r => if hasId postId r then p else r) rows)
  = (fun r => if hasId postId r then p else r) <$> find (hasId i) rows.
Proof.
  intros Hp. apply find_hasId_map. intros r _.
  destruct (hasId postId r) eqn:Hr; [|reflexivity].
  apply hasId_iff in Hr. congruence.
Qed.

(** C8. A successful rename of post P from [oldPath] to [newPath] leaves P
    with the new slug and [newPath]; every other post whose path is
    [oldPath] followed by nothing or by a slash and more has [oldPath]
    replaced by [newPath] in front of that rest; every other post keeps its
    path. *)
Theorem updatePost_renames_subtree (now postId : Z) (body : UpdateBody)
    (user : option Z) (uuids : string * string) (db db' : Db) (post post' : Post)
    (newSlug : string) :
  updatePost now postId body user uuids db = (Ok post', db') ->
  truthyString (upd_slug body) = Some newSlug ->
  find (hasId postId) (posts db) = Some post ->
  (find (hasId postId) (posts db') = Some post' /\
   slug post' = newSlug /\
   slugPath post' = newPathFor (posts db) post newSlug) /\
  (forall i r suffix,
     i <> postId -> find (hasId i) (posts db) = Some r ->
     slugPath r = slugPath post ++ suffix ->
     suffix = "" \/ (exists rest, suffix = "/" ++ rest) ->
     exists r', find (hasId i) (posts db') = Some r' /\
                slugPath r' = newPathFor (posts db) post newSlug ++ suffix) /\
  (forall i r,
     i <> postId -> find (hasId i) (posts db) = Some r ->
     ~ (exists suffix, slugPath r = slugPath post ++ suffix /\
                       (suffix = "" \/ exists rest, suffix = "/" ++ rest)) ->
     exists r', find (hasId i) (posts db') = Some r' /\ slugPath r' = slugPath r).
Proof.
  intros Hrun Hslug Hpost.
  apply updatePost_Ok in Hrun as (post0 & snap & Hpost0 & _ & _ & -> & ->).
  rewrite Hpost in Hpost0. inversion Hpost0; subst post0. clear Hpost0.
  assert (Hpid : id (edited now body db post) = Some postId).
  { rewrite edited_id. now apply find_hasId_id in Hpost. }
  assert (Hother : forall i r, i <> postId -> find (hasId i) (posts db) = Some r ->
            find (hasId i) (posts (set_posts
              (map (fun r0 => if hasId postId r0 then edited now body db post else r0)
                 (afterQuery body db post (posts db ++ [snap]))) db))
            = Some (if inSubtree (slugPath post) (slugPath r)
                    then set_slugPath
                           (replacePrefix (slugPath post)
                              (newPathFor (posts db) post newSlug) (slugPath r)) r
                    else r)).
  { intros i r Hne Hr. simpl. rewrite find_replace by exact Hpid.
    unfold afterQuery. rewrite Hslug, find_renamed, (find_app_l _ _ _ _ Hr). simpl.
    destruct (hasId postId _) eqn:Hid; [|reflexivity].
    apply hasId_iff in Hid. apply find_hasId_id in Hr.
    destruct (inSubtree _ _); simpl in Hid; congruence. }
  split; [|split].
  - split; [|split].
    + simpl. rewrite find_replace by exact Hpid.
      unfold afterQuery. rewrite Hslug, find_renamed, (find_app_l _ _ _ _ Hpost). simpl.
      destruct (hasId postId _) eqn:Hid; [reflexivity|].
      apply find_hasId_id, hasId_iff in Hpost.
      destruct (inSubtree _ _); simpl in Hid; unfold hasId in Hid, Hpost;
        simpl in Hid; congruence.
    + unfold edited. rewrite Hslug.
      destruct (truthyString (upd_name body)), (upd_tags body); reflexivity.
    + unfold edited. rewrite Hslug.
      destruct (truthyString (upd_name body)), (upd_tags body); reflexivity.
  - intros i r suffix Hne Hr Hpath Hsuffix.
    eexists. split; [apply (Hother i r Hne Hr)|].
    rewrite (proj2 (inSubtree_iff _ _)) by eauto.
    simpl. rewrite Hpath. apply replacePrefix_append.
  - intros i r Hne Hr Hout.
    eexists. split; [apply (Hother i r Hne Hr)|].
    destruct (inSubtree _ _) eqn:Hin; [|reflexivity].
    apply inSubtree_iff in Hin. contradiction.
Qed.

End EditProperties.

(** ** The handlers on the small site *)

Lemma restoreVersion_restores_witness :
  exists post' db',
    @restoreVersion treeStore 2 5 (Some 7%Z) someUuids siteDb = (Ok post', db') /\
    (exists snap, find (hasId 6) (posts db') = Some snap /\
                  type snap = "post_version" /\ parent snap = Some 2%Z /\
                  name snap = "b") /\
    find (hasId 2) (posts db') = Some post'.
Proof.
  assert (Hrun : exists post' db',
            @restoreVersion treeStore 2 5 (Some 7%Z) someUuids siteDb = (Ok post', db'))
    by (eexists; eexists; vm_compute; reflexivity).
  destruct Hrun as (post' & db' & Hrun).
  exists post', db'. split; [exact Hrun|].
  destruct (proj2 (proj2 (proj2 (@restoreVersion_restores treeStore 2 5 (Some 7%Z)
                                   someUuids siteDb))) post' db' Hrun)
    as (post & v & snap & Hpost & _ & _ & _ & _ & _ & Hof & Hnext & _ & _ & _ & Hrow).
  inversion Hpost; subst post.
  destruct Hof as (Htype & Hparent & Hname & _).
  split; [|exact Hrow].
  exists snap. repeat split; assumption.
Defined.

Lemma restoreVersion_frame_witness :
  exists post' db',
    @restoreVersion treeStore 2 5 (Some 7%Z) someUuids siteDb = (Ok post', db') /\
    slugPath post' = "a/b" /\ status post' = "draft" /\ parent post' = Some 1%Z.
Proof.
  assert (Hrun : exists post' db',
            @restoreVersion treeStore 2 5 (Some 7%Z) someUuids siteDb = (Ok post', db'))
    by (eexists; eexists; vm_compute; reflexivity).
  destruct Hrun as (post' & db' & Hrun).
  exists post', db'. split; [exact Hrun|].
  destruct (@restoreVersion_frame treeStore 2 5 (Some 7%Z) someUuids siteDb db' post' Hrun)
    as (post & Hpost & _ & _ & Hpath & Hstatus & _ & Hparent & _).
  inversion Hpost; subst post.
  repeat split; assumption.
Defined.

Lemma edits_snapshot_first_witness :
  exists post' db',
    @updatePost treeStore 50 2 renameBody (Some 7%Z) someUuids siteDb = (Ok post', db') /\
    @snapshotFirst treeStore 2 (Some 7%Z) someUuids siteDb db'.
Proof.
  assert (Hrun : exists post' db',
            @updatePost treeStore 50 2 renameBody (Some 7%Z) someUuids siteDb
            = (Ok post', db'))
    by (eexists; eexists; vm_compute; reflexivity).
  destruct Hrun as (post' & db' & Hrun).
  exists post', db'. split; [exact Hrun|].
  exact (proj1 (proj2 (@edits_snapshot_first treeStore 50 2 5 renameBody []
                         (Some 7%Z) someUuids siteDb)) post' db' Hrun).
Defined.

Lemma updatePost_renames_subtree_witness :
  exists post' db',
    @updatePost treeStore 50 2 renameBody (Some 7%Z) someUuids siteDb = (Ok post', db') /\
    slugPath post' = "a/x" /\
    slugPath <$> find (hasId 3) (posts db') = Some "a/x/c" /\
    slugPath <$> find (hasId 4) (posts db') = Some "ab".
Proof.
  assert (Hrun : exists post' db',
            @updatePost treeStore 50 2 renameBody (Some 7%Z) someUuids siteDb
            = (Ok post', db'))
    by (eexists; eexists; vm_compute; reflexivity).
  destruct Hrun as (post' & db' & Hrun).
  exists post', db'. split; [exact Hrun|].
  destruct (@updatePost_renames_subtree treeStore 50 2 renameBody (Some 7%Z) someUuids
              siteDb db'
              (row 2 "page" "b" "a/b" "draft" (Some 1%Z) [("content.title", "Hello")])
              post' "x" Hrun eq_refl eq_refl)
    as ((_ & _ & Hself) & Hinside & Houtside).
  split; [exact Hself|]. split.
  - destruct (Hinside 3%Z (row 3 "page" "c" "a/b/c" "draft" (Some 2%Z) []) "/c")
      as (r' & Hfind & Hpath);
      [discriminate | reflexivity | reflexivity | right; now exists "c" |].
    rewrite Hfind. simpl. rewrite Hpath. reflexivity.
  - destruct (Houtside 4%Z (row 4 "page" "ab" "ab" "draft" None []))
      as (r' & Hfind & Hpath); [discriminate | reflexivity | |].
    + intros (suffix & Hpath & _). discriminate Hpath.
    + rewrite Hfind. simpl. rewrite Hpath. reflexivity.
Defined.

Lemma publishPosts_sets_state_witness :
  exists res db',
    @publishPosts treeStore 50 cascadeBody siteDb = (Ok res, db') /\
    exists p', find (hasId 3) (posts db') = Some p' /\
               status p' = "published" /\ publishedAt p' = Some 50%Z /\
               publishedFrom p' = Some 100%Z /\ publishedUntil p' = None.
Proof.
  assert (Hrun : exists res db',
            @publishPosts treeStore 50 cascadeBody siteDb = (Ok res, db'))
    by (eexists; eexists; vm_compute; reflexivity).
  destruct Hrun as (res & db' & Hrun).
  exists res, db'. split; [exact Hrun|].
  destruct (proj1 (proj2 (proj2 (@publishPosts_sets_state treeStore 50 cascadeBody
                                   siteDb)))
              res db' Hrun)
    as (_ & Hrows).
  destruct (Hrows 3%Z (row 3 "page" "c" "a/b/c" "draft" (Some 2%Z) []))
    as (p' & Hfind & _ & Hpub & _).
  { reflexivity. }
  { exists (row 2 "page" "b" "a/b" "draft" (Some 1%Z) [("content.title", "Hello")]).
    split; [simpl; tauto|]. split; [exists 2%Z; split; [now left | reflexivity]|].
    exists (row 3 "page" "c" "a/b/c" "draft" (Some 2%Z) []).
    split; [vm_compute; tauto | reflexivity]. }
  destruct (Hpub eq_refl) as (Hs & Hat & Hfrom & Huntil).
  exists p'. repeat split; assumption.
Defined.

Lemma publishPosts_ignores_type_witness :
  exists res db',
    @publishPosts treeStore 50 cascadeBody siteDb = (Ok res, db') /\
    (exists p', find (hasId 5) (posts db') = Some p' /\
                status p' = "published" /\ type p' = "post_version") /\
    find (hasId 4) (posts db') = Some (row 4 "page" "ab" "ab" "draft" None []).
Proof.
  assert (Hrun : exists res db',
            @publishPosts treeStore 50 cascadeBody siteDb = (Ok res, db'))
    by (eexists; eexists; vm_compute; reflexivity).
  destruct Hrun as (res & db' & Hrun).
  exists res, db'. split; [exact Hrun|]. split.
  - destruct (proj1 (@publishPosts_ignores_type treeStore 50 cascadeBody siteDb db' res
                       eq_refl Hrun 5%Z
                       (row 5 "post_version" "6f9619ff" "8b0d4c1a" "draft" (Some 2%Z)
                          [("content.title", "Old")]) eq_refl))
      as (p' & Hfind & Hs & Ht).
    { exists (row 2 "page" "b" "a/b" "draft" (Some 1%Z) [("content.title", "Hello")]).
      split; [simpl; tauto|]. split; [exists 2%Z; split; [now left | reflexivity]|].
      exists (row 5 "post_version" "6f9619ff" "8b0d4c1a" "draft" (Some 2%Z)
                [("content.title", "Old")]).
      split; [vm_compute; tauto | reflexivity]. }
    exists p'. repeat split; assumption.
  - apply (proj1 (proj2 (@publishPosts_ignores_type treeStore 50 cascadeBody siteDb db'
                           res eq_refl Hrun 4%Z (row 4 "page" "ab" "ab" "draft" None [])
                           eq_refl))).
    intros (q & Hq & (j & Hj & Hqid) & d & Hd & Hdid).
    destruct Hj as [<-|[]].
    simpl in Hq. destruct Hq as [<-|[<-|[<-|[<-|[<-|[]]]]]]; try discriminate.
    vm_compute in Hd. destruct Hd as [<-|[<-|[<-|[]]]]; discriminate.
Defined.

(** C4, against the claim as stated. Row 5 of the small site is a draft
    [post_version]. A recursive publish of its parent reaches it through
    the tree, and a recursive publish that names it reaches it however the
    descendants are found: it ends up [published]. *)
Lemma publishPosts_publishes_post_version :
  (type <$> find (hasId 5) (posts siteDb) = Some "post_version" /\
   status <$> find (hasId 5) (posts siteDb) = Some "draft") /\
  (In 5%Z (@publishTargets treeStore cascadeBody (posts siteDb)
             (List.filter (idIn (ids cascadeBody)) (posts siteDb))) /\
   status <$> find (hasId 5) (posts (snd (@publishPosts treeStore 50 cascadeBody siteDb)))
   = Some "published") /\
  (In 5%Z (@publishTargets pathStore versionBody (posts siteDb)
             (List.filter (idIn (ids versionBody)) (posts siteDb))) /\
   status <$> find (hasId 5) (posts (snd (@publishPosts pathStore 50 versionBody siteDb)))
   = Some "published").
Proof. vm_compute. intuition. Qed.

(** A recursive copy of the folder [a] as [z]: the copies are created in
    path order, each under the copy of its parent. *)
Example copyPost_recursive :
  match fst (@copyPost treeStore 1
               {| copy_parentId := None; copy_recursive := true;
                  copy_name := "Z"; copy_slug := "z" |} (Some 7%Z) siteDb) with
  | Ok created => map (fun p => (id p, slugPath p, parent p)) created
  | Err _ => []
  end
  = [(Some 6%Z, "z", None); (Some 7%Z, "z/b", Some 6%Z); (Some 8%Z, "z/b/c", Some 7%Z)].
Proof. vm_compute. reflexivity. Qed.

(** C3 on the small site: the parent 99 does not exist, the source 2 does;
    then the source 99 does not exist. Both are reported as
    [duplicate_slug]. *)
Example copyPost_unresolved_ids :
  @copyPost treeStore 2 orphanCopy (Some 7%Z) siteDb
  = (Err (BadRequestError "duplicate_slug"), siteDb) /\
  @copyPost treeStore 99
    {| copy_parentId := None; copy_recursive := true;
       copy_name := "Copy"; copy_slug := "copy" |} (Some 7%Z) siteDb
  = (Err (BadRequestError "duplicate_slug"), siteDb).
Proof. split; vm_compute; reflexivity. Qed.

(** * Further properties *)

(** ** The publish window is an interval *)

(** X1. A post visible at two instants is visible at every instant between
    them. *)
Theorem isPostPublished_interval (t1 t t2 : Z) (post : Post) :
  isPostPublished t1 (Some post) = true ->
  isPostPublished t2 (Some post) = true ->
  (t1 <= t <= t2)%Z ->
  isPostPublished t (Some post) = true.
Proof.
  unfold isPostPublished, isBefore, isAfter.
  destruct (status post =? "published"); [|discriminate].
  destruct (publishedFrom post) as [from|], (publishedUntil post) as [till|];
    intros H1 H2 Ht;
    repeat match goal with
           | |- context [(?a <? ?b)%Z] => destruct (Z.ltb_spec a b)
           | H : context [(?a <? ?b)%Z] |- _ => destruct (Z.ltb_spec a b)
           end; try reflexivity; try discriminate; lia.
Qed.

(** X2. A window that closes before it opens hides the post at every instant. *)
Theorem isPostPublished_inverted_window (now from till : Z) (post : Post) :
  publishedFrom post = Some from ->
  publishedUntil post = Some till ->
  (till < from)%Z ->
  isPostPublished now (Some post) = false.
Proof.
  unfold isPostPublished, isBefore, isAfter. intros -> -> Hlt.
  destruct (status post =? "published"); [|reflexivity].
  destruct (Z.ltb_spec now from); [reflexivity|].
  destruct (Z.ltb_spec till now); [reflexivity | lia].
Qed.

(** ** The reference compiler: which posts are compiled, and what comes out *)

Lemma uniq_from_In {A : Type} `{EqDecision A} (seen l : list A) (x : A) :
  In x (uniq_from seen l) <-> In x l /\ ~ In x seen.
Proof.
  revert seen. induction l as [|y l IH]; intros seen; simpl; [tauto|].
  destruct (existsb (fun z => bool_decide (y = z)) seen) eqn:Hseen.
  - apply existsb_exists in Hseen as [z [Hz Hyz]].
    apply bool_decide_eq_true_1 in Hyz. subst z.
    rewrite IH. split; [tauto|]. intros [[->|Hin] Hout]; tauto.
  - assert (Hy : ~ In y seen).
    { intros Hin. apply not_true_iff_false in Hseen. apply Hseen.
      apply existsb_exists. exists y. split; [exact Hin | now apply bool_decide_eq_true_2]. }
    simpl. rewrite IH. simpl. split.
    + intros [->|[Hin Hout]]; [tauto|]. split; [tauto|]. intros Hs. apply Hout. now right.
    + intros [[->|Hin] Hout]; [now left|].
      destruct (decide (y = x)) as [->|Hne]; [now left|].
      right. split; [exact Hin|]. intros [Heq|Hs]; [congruence | tauto].
Qed.

Lemma uniq_from_NoDup {A : Type} `{EqDecision A} (seen l : list A) :
  List.NoDup (uniq_from seen l).
Proof.
  revert seen. induction l as [|y l IH]; intros seen; simpl; [constructor|].
  destruct (existsb _ seen); [apply IH|].
  constructor; [|apply IH].
  rewrite uniq_from_In. simpl. tauto.
Qed.

Lemma truthyNum_Some (o : option Z) (i : Z) :
  truthyNum o = Some i <-> o = Some i /\ i <> 0%Z.
Proof.
  unfold truthyNum. destruct o as [j|]; [|split; [discriminate | intros [? _]; discriminate]].
  destruct (Z.eqb_spec j 0); split.
  - discriminate.
  - intros [Hj Hne]. inversion Hj. congruence.
  - intros Hj. inversion Hj. subst. tauto.
  - intros [Hj _]. exact Hj.
Qed.

Lemma omap_truthyNum_In (l : list (option Z)) (i : Z) :
  In i (omap truthyNum l) <-> In (Some i) l /\ i <> 0%Z.
Proof.
  induction l as [|o l IH]; simpl; [tauto|].
  destruct (truthyNum o) as [j|] eqn:Ho.
  - apply truthyNum_Some in Ho as [-> Hj]. simpl. rewrite IH. split.
    + intros [->|[Hin Hne]]; tauto.
    + intros [[Heq|Hin] Hne]; [left; congruence | tauto].
  - rewrite IH. split; [tauto|]. intros [[->|Hin] Hne]; [|tauto].
    assert (truthyNum (Some i) = Some i) by now apply truthyNum_Some. congruence.
Qed.

Lemma omap_truthyNum_NoDup (l : list (option Z)) :
  List.NoDup l -> List.NoDup (omap truthyNum l).
Proof.
  induction 1 as [|o l Hout Hnd IH]; simpl; [constructor|].
  destruct (truthyNum o) as [j|] eqn:Ho; [|exact IH].
  apply truthyNum_Some in Ho as [-> Hj].
  constructor; [|exact IH]. rewrite omap_truthyNum_In. tauto.
Qed.

Lemma distinctIds_In (refs : list (string * option Z)) (i : Z) :
  In i (distinctIds refs) <-> i <> 0%Z /\ exists k, In (k, Some i) refs.
Proof.
  unfold distinctIds, uniq. rewrite omap_truthyNum_In, uniq_from_In, in_map_iff.
  split.
  - intros [[[[k o] [Ho Hin]] _] Hne]. simpl in Ho. subst o. eauto.
  - intros [Hne [k Hin]]. repeat split; [|tauto|exact Hne].
    exists (k, Some i). auto.
Qed.

(** X3. The posts [compilePost] compiles for the links of a content: every
    target that is not falsy, each once, however many paths point at it. *)
Theorem distinctIds_each_target_once (refs : list (string * option Z)) :
  List.NoDup (distinctIds refs) /\
  forall i, In i (distinctIds refs) <-> i <> 0%Z /\ exists k, In (k, Some i) refs.
Proof.
  split; [|apply distinctIds_In].
  unfold distinctIds, uniq. apply omap_truthyNum_NoDup, uniq_from_NoDup.
Qed.

Section CompilerOutcomes.

Context `{Collaborators}.

Lemma promiseAll_rejection (l : list (option (Result Json))) (e : Error) :
  promiseAll l = Some (Err e) -> In (Some (Err e)) l.
Proof.
  induction l as [|r rest IH]; simpl; [discriminate|].
  destruct r as [[v|e0]|]; [| |discriminate].
  - destruct (promiseAll rest) as [[vs|e1]|]; try discriminate.
    intros Heq. inversion Heq; subst. right. now apply IH.
  - destruct (promiseAll rest) as [r'|]; [|discriminate].
    intros Heq. inversion Heq; subst. now left.
Qed.

Lemma collectPosts_rejection (compiled : list Json) (postsObj : gmap string Json)
    (e : Error) :
  collectPosts compiled postsObj = Err e -> exists msg, e = TypeError msg.
Proof.
  revert postsObj. induction compiled as [|v rest IH]; intros postsObj; simpl;
    [discriminate|].
  destruct v; try apply IH; intros Heq; inversion Heq; eauto.
Qed.

Lemma resolvePost_by_id (db : Db) (now i : Z) :
  i <> 0%Z -> resolvePost db now None (Some i) None <> NoInput.
Proof.
  intros Hne. unfold resolvePost. cbn [truthyString].
  assert (Hi : truthyNum (Some i) = Some i) by now apply truthyNum_Some.
  rewrite Hi. destruct (find (hasId i) (posts db)) as [post|]; [|discriminate].
  destruct (isPostPublished now (Some post)); discriminate.
Qed.

Lemma compilePost_outcomeOf (fuel : nat) :
  forall (db : Db) (now : Z) (slugPath_ : option string) (id_ : option Z)
         (allowNull : bool) (data : option Post) (debt : nat) (r : Result Json),
    compilePost fuel db now slugPath_ id_ allowNull data debt = Some r ->
    outcomeOf (resolvePost db now slugPath_ id_ data) allowNull r.
Proof.
  induction fuel as [|fuel IH]; intros db now slugPath_ id_ allowNull data debt r;
    simpl; [discriminate|].
  destruct (resolvePost db now slugPath_ id_ data) as [| |post] eqn:Hres; simpl.
  - intros Heq. now inversion Heq.
  - intros Heq. now inversion Heq.
  - unfold compileResolved.
    destruct (negb _ && _).
    + destruct (promiseAll _) as [[compiled|e]|] eqn:Hall; [| |discriminate].
      * destruct (collectPosts compiled ∅) as [postsObj|e] eqn:Hcollect.
        -- intros Heq. inversion Heq. left. unfold withContent. eauto.
        -- intros Heq. inversion Heq; subst. right.
           destruct (collectPosts_rejection _ _ _ Hcollect) as [msg ->]. eauto.
      * intros Heq. inversion Heq; subst. right.
        apply promiseAll_rejection in Hall. apply in_map_iff in Hall as [i [Hsub Hin]].
        apply distinctIds_In in Hin as [Hne _].
        pose proof (IH _ _ _ _ _ _ _ _ Hsub) as Hout.
        pose proof (resolvePost_by_id db now i Hne) as Hno.
        destruct (resolvePost db now None (Some i) None); simpl in Hout.
        -- contradiction.
        -- discriminate.
        -- destruct Hout as [[fields Hf]|Hm]; [discriminate | exact Hm].
    + intros Heq. inversion Heq. left. unfold withContent. eauto.
Qed.

End CompilerOutcomes.

Section CompilerEndpoints.

Context `{Collaborators}.

(** X4. Whatever the store and the content, a call of [compilePost] that
    returns yields one of four things: [invalid_post] when it is given
    nothing to look up (even with [allowNull]); [null] or [invalid_post],
    by [allowNull], when the post is missing or not visible; and for a
    resolved post either an object or the [TypeError] of a broken link. A
    nested compile never surfaces [invalid_post]. *)
Theorem compilePost_outcomes (fuel : nat) (db : Db) (now : Z)
    (slugPath_ : option string) (id_ : option Z) (allowNull : bool)
    (data : option Post) (debt : nat) (r : Result Json) :
  compilePost fuel db now slugPath_ id_ allowNull data debt = Some r ->
  outcomeOf (resolvePost db now slugPath_ id_ data) allowNull r.
Proof. apply compilePost_outcomeOf. Qed.

(** X5. The public content endpoint serves a path only when the first post
    stored under it is effectively visible now, and then serves an object;
    a path that is empty, unknown or not visible is answered with
    [invalid_post]. *)
Theorem compileContent_serves_only_visible (db : Db) (now : Z) (path : string) :
  (forall fuel v,
     compileContent fuel db now path = Some (Ok v) ->
     exists post fields,
       find (fun p => slugPath p =? path) (posts db) = Some post /\
       isPostPublished now (Some post) = true /\
       v = JObj fields) /\
  (forall fuel,
     1 <= fuel ->
     (path = "" \/
      find (fun p => slugPath p =? path) (posts db) = None \/
      exists post, find (fun p => slugPath p =? path) (posts db) = Some post /\
                   isPostPublished now (Some post) = false) ->
     compileContent fuel db now path = Some (Err (BadRequestError "invalid_post"))).
Proof.
  unfold compileContent. split.
  - intros fuel v Hrun. apply compilePost_outcomeOf in Hrun.
    unfold resolvePost in Hrun. cbn [truthyNum] in Hrun.
    destruct (truthyString (Some path)) as [path'|] eqn:Hpath; [|discriminate].
    assert (path' = path) as ->.
    { simpl in Hpath. destruct (path =? ""); [discriminate | now inversion Hpath]. }
    destruct (find (fun p => slugPath p =? path) (posts db)) as [post|]; [|discriminate].
    destruct (isPostPublished now (Some post)) eqn:Hvisible; [|discriminate].
    destruct Hrun as [[fields Hv]|[msg Hv]]; [|discriminate].
    inversion Hv. eauto.
  - intros [|fuel] Hfuel Hhidden; [lia|].
    cbn [compilePost]. unfold resolvePost, truthyString, truthyNum.
    destruct (String.eqb_spec path "") as [->|Hne]; [reflexivity|].
    destruct Hhidden as [Hempty|[Hnone|[post [Hfound Hdraft]]]]; [contradiction | |].
    + now rewrite Hnone.
    + now rewrite Hfound, Hdraft.
Qed.

(** X6. The preview compiles the posted body whatever its status and whether
    or not the store knows it: it always returns, and never with
    [invalid_post]. *)
Theorem compilePreview_ignores_visibility (db : Db) (now : Z) (body : Post)
    (flat : list (string * string)) :
  exists r,
    (forall fuel, S maxDebt <= fuel -> compilePreview fuel db now body flat = Some r) /\
    ((exists fields, r = Ok (JObj fields)) \/ (exists msg, r = Err (TypeError msg))).
Proof.
  unfold compilePreview.
  destruct (compilePost_settles (S maxDebt) db now None None false
              (Some (previewPost body flat)) 0) as [r Hr]; [lia|].
  exists r. split; [exact Hr|].
  apply (compilePost_outcomeOf _ _ _ _ _ _ _ _ _ (Hr (S maxDebt) (le_n _))).
Qed.

Lemma prop_assign_other (k k0 : string) (v : Json) (fields : list (string * Json)) :
  k <> k0 -> prop k (assign k0 v fields) = prop k fields.
Proof.
  intros Hne. induction fields as [|[k' v'] r IH]; simpl.
  - destruct (String.eqb_spec k0 k); [congruence | reflexivity].
  - destruct (String.eqb_spec k' k0) as [->|Hk]; simpl.
    + destruct (String.eqb_spec k0 k); [congruence | reflexivity].
    + destruct (String.eqb_spec k' k); [reflexivity | exact IH].
Qed.

Lemma lodash_set_plainKey (fields : list (string * Json)) (k : string) (v : Json) :
  plainKey k -> lodash_set (JObj fields) k v = JObj (assign k v fields).
Proof.
  intros [Hplain Hrefused]. unfold lodash_set, castPath, isKey.
  rewrite Hplain. cbn [orb setPath]. now rewrite Hrefused.
Qed.

Lemma fold_set_plainKey (value_of : string -> Json) (keys : list string) :
  Forall plainKey keys ->
  forall fields,
  exists fields',
    fold_left (fun c k => lodash_set c k (value_of k)) keys (JObj fields) = JObj fields' /\
    (forall k, In k keys -> prop k fields' = value_of k) /\
    (forall k, ~ In k keys -> prop k fields' = prop k fields).
Proof.
  induction 1 as [|k0 keys Hk0 _ IH]; intros fields; cbn [fold_left].
  - exists fields. simpl. repeat split; tauto.
  - rewrite (lodash_set_plainKey fields k0 _ Hk0).
    destruct (IH (assign k0 (value_of k0) fields)) as (fields' & -> & Hin & Hout).
    exists fields'. split; [reflexivity|]. split.
    + intros k [<-|Hk].
      * destruct (in_dec string_dec k0 keys) as [Hk|Hk]; [now apply Hin|].
        rewrite (Hout k0 Hk). apply prop_assign_same.
      * now apply Hin.
    + intros k Hk. rewrite Hout by (intros Hin'; apply Hk; now right).
      apply prop_assign_other. intros ->. apply Hk. now left.
Qed.

(** X7. When the link paths are plain keys of an object (word characters
    only, so that lodash takes each as one step, and none of the three
    keys [_.set] refuses), the substitution puts at each link path the
    compiled post stored under the target of that path, [undefined] when
    there is none (a link with a null target loses its marker), and leaves
    every other property as it was. Two paths with the same target receive
    the same value. *)
Theorem injectReferences_fills_paths (refs : list (string * option Z))
    (postsObj : gmap string Json) (fields : list (string * Json)) :
  Forall plainKey (map fst refs) ->
  (forall k, In k (map fst refs) ->
     member k (injectReferences refs postsObj (JObj fields))
     = orUndefined (postsObj !! refKey refs k)) /\
  (forall k, ~ In k (map fst refs) ->
     member k (injectReferences refs postsObj (JObj fields)) = prop k fields) /\
  (forall k1 k2, In k1 (map fst refs) -> In k2 (map fst refs) ->
     refKey refs k1 = refKey refs k2 ->
     member k1 (injectReferences refs postsObj (JObj fields))
     = member k2 (injectReferences refs postsObj (JObj fields))).
Proof.
  intros Hkeys. unfold injectReferences.
  destruct (fold_set_plainKey (fun k => orUndefined (postsObj !! refKey refs k))
              (map fst refs) Hkeys fields) as (fields' & -> & Hin & Hout).
  cbn [member]. split; [|split].
  - exact Hin.
  - exact Hout.
  - intros k1 k2 H1 H2 Hsame. rewrite (Hin k1 H1), (Hin k2 H2). now rewrite Hsame.
Qed.

End CompilerEndpoints.

(** ** Copy: what a successful copy creates *)

Section CopyOutcome.

Context `{Collaborators}.

Lemma appendedTo_fresh (news : list Post) :
  forall rows c r, appendedTo rows news -> In c news -> In r rows -> id r <> id c.
Proof.
  induction news as [|c0 rest IH]; intros rows c r Happ Hc Hr; [destruct Hc|].
  destruct Happ as [Hid Hrest]. destruct Hc as [->|Hc].
  - rewrite Hid. now apply fresh_next.
  - apply (IH (rows ++ [c0])%list c r Hrest Hc). apply in_or_app. now left.
Qed.

Lemma appendedTo_NoDup (news : list Post) :
  forall rows, appendedTo rows news -> List.NoDup (map id news).
Proof.
  induction news as [|c0 rest IH]; intros rows Happ; simpl; [constructor|].
  destruct Happ as [Hid Hrest]. constructor; [|now apply (IH (rows ++ [c0])%list)].
  intros Hin. apply in_map_iff in Hin as [c [Heq Hc]].
  apply (appendedTo_fresh rest (rows ++ [c0])%list c c0 Hrest Hc); [|congruence].
  apply in_or_app. right. now left.
Qed.

Lemma copyChildren_Ok (parent_ : option Post) (body : CopyBody) (user : option Z)
    (sourcePost : Post) (children : list Post) :
  forall created0 db created db',
    copyChildren parent_ body user sourcePost created0 children db = Ok (created, db') ->
    exists news,
      created = (created0 ++ news)%list /\
      db' = set_posts (posts db ++ news) db /\
      Forall2 (copiedFrom parent_ body user sourcePost) children news /\
      appendedTo (posts db) news.
Proof.
  induction children as [|child rest IH]; intros created0 db created db' Hrun.
  - simpl in Hrun. unfold ret in Hrun. inversion Hrun; subst.
    exists []. rewrite !app_nil_r. repeat split; [now destruct db' | constructor].
  - simpl in Hrun. apply bind_Ok in Hrun as (created1 & db1 & Hchild & Hrest).
    unfold copyChild in Hchild.
    apply bind_Ok in Hchild as (post & db1' & Hsave & Hret).
    unfold ret in Hret. inversion Hret; subst created1 db1'. clear Hret.
    apply save_new_Ok in Hsave as [Hpost ->]; [|reflexivity].
    apply IH in Hrest as (news & -> & -> & Hall & Happ).
    exists (post :: news). simpl. rewrite <- !app_assoc. simpl.
    repeat split; try assumption.
    + constructor; [|exact Hall]. subst post. unfold copiedFrom. simpl.
      rewrite map_map. repeat split; reflexivity.
    + subst post. reflexivity.
Qed.

Lemma copyPost_Ok (postId : Z) (body : CopyBody) (user : option Z) (db db' : Db)
    (created : list Post) :
  copyPost postId body user db = (Ok created, db') ->
  exists parent_ loaded,
    match truthyNum (copy_parentId body) with
    | Some parentId => exists q, find (hasId parentId) (posts db) = Some q /\ parent_ = Some q
    | None => parent_ = None
    end /\
    find (hasId postId) (posts db) = Some loaded /\
    copyChildren parent_ body user (set_tags [] loaded) []
      (if copy_recursive body then copySelection (set_tags [] loaded) (posts db)
       else [set_tags [] loaded]) db
    = Ok (created, db').
Proof.
  unfold copyPost. intros Hrun. apply rethrowing_Ok, transaction_Ok in Hrun.
  apply bind_Ok in Hrun as (parent_ & db0 & Hparent & Hrun).
  assert (Hp : db0 = db /\
               match truthyNum (copy_parentId body) with
               | Some parentId =>
                   exists q, find (hasId parentId) (posts db) = Some q /\ parent_ = Some q
               | None => parent_ = None
               end).
  { destruct (truthyNum (copy_parentId body)) as [parentId|].
    - unfold findOne, bind, readPosts, ret in Hparent.
      destruct (find (hasId parentId) (posts db)) as [q|]; [|discriminate].
      inversion Hparent; subst. eauto.
    - unfold ret in Hparent. inversion Hparent; subst. auto. }
  destruct Hp as [-> Hp].
  apply bind_Ok in Hrun as (found & db0 & Hfind & Hrun).
  unfold findOne, bind, readPosts, ret in Hfind. inversion Hfind; subst found db0.
  clear Hfind.
  destruct (find (hasId postId) (posts db)) as [loaded|] eqn:Hloaded; [|discriminate].
  apply bind_Ok in Hrun as (children & db0 & Hchildren & Hrun).
  exists parent_, loaded. repeat split; [exact Hp|].
  destruct (copy_recursive body).
  - unfold subtreeOf, bind, readPosts, ret in Hchildren.
    inversion Hchildren; subst. exact Hrun.
  - unfold ret in Hchildren. inversion Hchildren; subst. exact Hrun.
Qed.

End CopyOutcome.

Section CopyProperties2.

Context `{Collaborators}.



Lemma insertBySlugPath_length (p : Post) (l : list Post) :
  List.length (insertBySlugPath p l) = S (List.length l).
Proof.
  induction l as [|q r IH]; simpl; [reflexivity|].
  destruct (String.leb (slugPath p) (slugPath q)); simpl; [reflexivity | now rewrite IH].
Qed.

Lemma orderBySlugPath_length (l : list Post) :
  List.length (orderBySlugPath l) = List.length l.
Proof.
  unfold orderBySlugPath. induction l as [|p l IH]; simpl; [reflexivity|].
  now rewrite insertBySlugPath_length, IH.
Qed.

Lemma getSlugPath_root (body : CopyBody) (db : Db) (parent_ : option Post)
    (sourcePost child : Post) :
  match truthyNum (copy_parentId body) with
  | Some parentId => exists q, find (hasId parentId) (posts db) = Some q /\ parent_ = Some q
  | None => parent_ = None
  end ->
  getSlugPath parent_ (copy_slug body) sourcePost child
  = copyRoot body db ++ slice (String.length (slugPath sourcePost)) (slugPath child).
Proof.
  unfold getSlugPath, copyRoot. intros Hparent.
  destruct (truthyNum (copy_parentId body)) as [parentId|]; simpl.
  - destruct Hparent as (q & -> & ->). now rewrite !append_assoc.
  - subst parent_. reflexivity.
Qed.

(** X8. A copy that goes through only appends: the rows of the store stay as
    they were, the created posts follow them in the order of the response,
    each with the next id of the sequence, so that no created id is taken
    or repeated. *)
Theorem copyPost_only_appends (postId : Z) (body : CopyBody) (user : option Z)
    (db db' : Db) (created : list Post) :
  copyPost postId body user db = (Ok created, db') ->
  db' = set_posts (posts db ++ created) db /\
  appendedTo (posts db) created /\
  (forall c r, In c created -> In r (posts db) -> id r <> id c) /\
  List.NoDup (map id created).
Proof.
  intros Hrun. apply copyPost_Ok in Hrun as (parent_ & loaded & _ & _ & Hrun).
  apply copyChildren_Ok in Hrun as (news & -> & -> & _ & Happ). simpl.
  repeat split; try assumption.
  - intros c r Hc Hr. now apply (appendedTo_fresh news (posts db)).
  - now apply (appendedTo_NoDup news (posts db)).
Qed.

Lemma slice_all (s : string) : slice (String.length s) s = "".
Proof.
  rewrite <- (append_empty_r s) at 2. apply slice_append.
Qed.

(** X9. A copy without [recursive] creates one post: it has the name and the
    slug of the request, sits at that slug under the destination parent
    (at the root without one), and takes the type, the content type and
    the meta pairs of the source. *)
Theorem copyPost_single (postId : Z) (body : CopyBody) (user : option Z)
    (db db' : Db) (created : list Post) :
  copy_recursive body = false ->
  copyPost postId body user db = (Ok created, db') ->
  exists source copy,
    find (hasId postId) (posts db) = Some source /\
    created = [copy] /\
    name copy = copy_name body /\
    slug copy = copy_slug body /\
    slugPath copy = copyRoot body db /\
    parent copy = (truthyNum (copy_parentId body)
                   ≫= (fun i => find (hasId i) (posts db))) ≫= id /\
    type copy = type source /\
    contentType copy = contentType source /\
    map (fun m => (key m, value m)) (meta copy)
    = map (fun m => (key m, value m)) (meta source) /\
    author copy = user.
Proof.
  intros Hflat Hrun.
  apply copyPost_Ok in Hrun as (parent_ & loaded & Hparent & Hloaded & Hrun).
  rewrite Hflat in Hrun.
  pose proof (getSlugPath_root body db parent_ (set_tags [] loaded) (set_tags [] loaded)
                Hparent) as Hroot.
  simpl in Hrun. apply bind_Ok in Hrun as (created1 & db1 & Hchild & Hret).
  unfold ret in Hret. inversion Hret; subst created1 db1. clear Hret.
  unfold copyChild in Hchild. apply bind_Ok in Hchild as (copy & db1 & Hsave & Hret).
  unfold ret in Hret. inversion Hret; subst. clear Hret.
  apply save_new_Ok in Hsave as [-> _]; [|reflexivity].
  eexists loaded, _. split; [exact Hloaded|]. split; [reflexivity|].
  unfold sameId. rewrite bool_decide_eq_true_2 by reflexivity. simpl.
  rewrite map_map. simpl.
  repeat split; try reflexivity.
  - cbn [slugPath set_tags] in Hroot. rewrite Hroot, slice_all. apply append_empty_r.
  - destruct (truthyNum (copy_parentId body)) as [parentId|]; simpl.
    + destruct Hparent as (q & -> & ->). reflexivity.
    + now subst parent_.
Qed.



(** The path of the source goes into the [LIKE] pattern as it is: in the
    folder [a_b] the underscore matches any character, and the copy of
    [a_b] takes the page [axb/c] of another folder with it. *)
Example copyPost_wildcard_source :
  match fst (@copyPost treeStore 1 treeCopy (Some 7%Z) wildcardDb) with
  | Ok created => map (fun p => (slugPath p, parent p)) created
  | Err _ => []
  end
  = [("z", None); ("z/c", Some 3%Z)].
Proof. vm_compute. reflexivity. Qed.

End CopyProperties2.

(** ** Copy: the parent of a copied node *)

Lemma split_nonempty (sep : ascii) (s : string) : split sep s <> [].
Proof.
  destruct s as [|c s]; simpl; [discriminate|].
  destruct (Ascii.eqb c sep); [discriminate|].
  destruct (split sep s); discriminate.
Qed.

Lemma split_slashless (s : string) : slashless s -> split slash s = [s].
Proof.
  unfold slashless. induction s as [|c s IH]; simpl; intros Hs; [reflexivity|].
  apply Forall_cons in Hs as [Hc Hs].
  destruct (Ascii.eqb_spec c slash); [contradiction|].
  now rewrite (IH Hs).
Qed.

Lemma split_append_segment (s seg : string) :
  slashless seg -> split slash (s ++ "/" ++ seg) = (split slash s ++ [seg])%list.
Proof.
  intros Hseg. change ("/" ++ seg) with (String slash seg).
  induction s as [|c s IH].
  - cbn. now rewrite (split_slashless seg Hseg).
  - cbn [String.append split]. rewrite IH.
    destruct (Ascii.eqb c slash); [reflexivity|].
    pose proof (split_nonempty slash s) as Hne.
    destruct (split slash s) as [|h t]; [contradiction | reflexivity].
Qed.

Lemma join_split (s : string) : join "/" (split slash s) = s.
Proof.
  induction s as [|c s IH]; [reflexivity|].
  cbn [split]. pose proof (split_nonempty slash s) as Hne.
  destruct (Ascii.eqb_spec c slash) as [->|Hc].
  - destruct (split slash s) as [|h t]; [contradiction|].
    cbn [join]. cbn [join] in IH. now rewrite IH.
  - destruct (split slash s) as [|h t]; [contradiction|].
    destruct t as [|t1 t']; cbn [join] in *; rewrite <- IH; reflexivity.
Qed.

(** X11. [getParent] looks among the copies made so far for the first one whose
    path is the given path without its last segment; for a path of one
    segment it looks for the empty path. *)
Theorem getParent_strips_last_segment (created : list Post) (path seg : string) :
  slashless seg ->
  getParent created (path ++ "/" ++ seg)
  = find (fun post => slugPath post =? path) created /\
  getParent created seg = find (fun post => slugPath post =? "") created.
Proof.
  intros Hseg. unfold getParent, pop. split.
  - now rewrite (split_append_segment path seg Hseg), removelast_last, join_split.
  - now rewrite (split_slashless seg Hseg).
Qed.

(** ** Create *)

Section CreateProperties.

Context `{Collaborators}.





(** X12. A created post takes the next id, the name and the slug of the
    request, the type of the request or [post], and its path is its slug
    under the path of its parent, or its slug alone at the root; the rows
    of the store stay as they were. *)
Theorem createPost_path_rule (contentTypes : list ContentType) (body : CreateBody)
    (user : option Z) (db db' : Db) (post : Post) :
  createPost contentTypes body user db = (Ok post, db') ->
  db' = set_posts (posts db ++ [post]) db /\
  id post = Some (nextId (posts db)) /\
  name post = new_name body /\
  slug post = new_slug body /\
  type post = match truthyString (new_type body) with Some t => t | None => "post" end /\
  author post = user /\
  match truthyNum (new_parentId body) with
  | Some parentId =>
      exists q, find (hasId parentId) (posts db) = Some q /\
                parent post = Some parentId /\
                slugPath post = slugPath q ++ "/" ++ slug post
  | None => parent post = None /\ slugPath post = slug post
  end /\
  match truthyNum (new_contentTypeId body) with
  | Some contentTypeId =>
      contentType post = Some contentTypeId /\
      exists c, In c contentTypes /\ ct_id c = contentTypeId /\
                In (ct_type c) contentTypeKinds
  | None => contentType post = None
  end.
Proof.
  unfold createPost. intros Hrun. apply rethrowing_Ok, transaction_Ok in Hrun.
  apply bind_Ok in Hrun as (parent_ & db0 & Hparent & Hrun).
  apply bind_Ok in Hrun as (contentType_ & db1 & Hkind & Hsave).
  assert (Hp : db0 = db /\
               match truthyNum (new_parentId body) with
               | Some parentId =>
                   exists q, find (hasId parentId) (posts db) = Some q /\ parent_ = Some q
               | None => parent_ = None
               end).
  { destruct (truthyNum (new_parentId body)) as [parentId|].
    - unfold findOne, bind, readPosts, ret in Hparent.
      destruct (find (hasId parentId) (posts db)) as [q|]; [|discriminate].
      inversion Hparent; subst. eauto.
    - unfold ret in Hparent. inversion Hparent; subst. auto. }
  destruct Hp as [-> Hp].
  assert (Hc : db1 = db /\
               match truthyNum (new_contentTypeId body) with
               | Some contentTypeId =>
                   exists c, findContentType contentTypes contentTypeId = Some c /\
                             contentType_ = Some c
               | None => contentType_ = None
               end).
  { destruct (truthyNum (new_contentTypeId body)) as [contentTypeId|].
    - destruct (findContentType contentTypes contentTypeId) as [c|]; [|discriminate].
      unfold ret in Hkind. inversion Hkind; subst. eauto.
    - unfold ret in Hkind. inversion Hkind; subst. auto. }
  destruct Hc as [-> Hc].
  apply save_new_Ok in Hsave as [-> ->]; [|reflexivity]. simpl.
  repeat split.
  - destruct (truthyNum (new_parentId body)) as [parentId|].
    + destruct Hp as (q & Hq & ->). exists q. simpl.
      repeat split; [exact Hq | now apply find_hasId_id in Hq].
    + subst parent_. split; reflexivity.
  - destruct (truthyNum (new_contentTypeId body)) as [contentTypeId|].
    + destruct Hc as (c & Hfound & ->). unfold findContentType in Hfound.
      apply find_some in Hfound as [Hin Hc]. apply andb_prop in Hc as [Hid Hkinds].
      apply Z.eqb_eq in Hid. apply existsb_exists in Hkinds as (t & Ht & Heq).
      apply String.eqb_eq in Heq. simpl. split; [now rewrite Hid|].
      exists c. repeat split; [exact Hin | exact Hid | now rewrite Heq].
    + now subst contentType_.
Qed.


End CreateProperties.

(** ** Update: failures, fields and frame *)

Section UpdateProperties.

Context `{Collaborators}.






(** X15. A successful update sets the name only when the request gives a
    non-empty one, sets the tags only when the request gives an array, and
    then to the stored tags among the ids it names (unknown and falsy ids
    are dropped, an empty array clears the tags), stamps [updatedAt], and
    leaves the slug and the path alone when the request gives no slug. The
    type, parent, status, publish window, meta and content of the post
    never change. *)
Theorem updatePost_fields (now postId : Z) (body : UpdateBody) (user : option Z)
    (uuids : string * string) (db db' : Db) (post' : Post) :
  updatePost now postId body user uuids db = (Ok post', db') ->
  exists post,
    find (hasId postId) (posts db) = Some post /\
    find (hasId postId) (posts db') = Some post' /\
    name post' = match truthyString (upd_name body) with
                 | Some newName => newName
                 | None => name post
                 end /\
    match upd_tags body with
    | Some refs => forall t, In t (tags post') <->
                             In t (tagTable db) /\ In (Some t) refs /\ t <> 0%Z
    | None => tags post' = tags post
    end /\
    updatedAt post' = Some now /\
    (truthyString (upd_slug body) = None ->
     slug post' = slug post /\ slugPath post' = slugPath post) /\
    type post' = type post /\ parent post' = parent post /\
    status post' = status post /\ publishedAt post' = publishedAt post /\
    publishedFrom post' = publishedFrom post /\
    publishedUntil post' = publishedUntil post /\
    meta post' = meta post /\ content post' = content post /\
    author post' = author post.
Proof.
  intros Hrun.
  apply updatePost_Ok in Hrun as (post & snap & Hpost & _ & _ & -> & ->).
  assert (Hpid : id (edited now body db post) = Some postId).
  { rewrite edited_id. now apply find_hasId_id in Hpost. }
  exists post. split; [exact Hpost|]. split.
  { simpl. rewrite find_replace by exact Hpid.
    assert (Hq : exists q, find (hasId postId) (afterQuery body db post (posts db ++ [snap]))
                           = Some q).
    { unfold afterQuery. destruct (truthyString (upd_slug body)).
      - rewrite find_renamed, (find_app_l _ _ _ _ Hpost). simpl. eauto.
      - rewrite (find_app_l _ _ _ _ Hpost). eauto. }
    destruct Hq as [q Hq]. rewrite Hq. simpl.
    apply find_some in Hq as [_ ->]. reflexivity. }
  split.
  { unfold edited.
    destruct (truthyString (upd_slug body)), (truthyString (upd_name body)),
      (upd_tags body); reflexivity. }
  split.
  { unfold edited. destruct (upd_tags body) as [refs|].
    - intros t. cbn [tags set_updatedAt set_tags]. rewrite filter_In, existsb_exists.
      split.
      + intros (Hin & x & Hx & Heq). apply Z.eqb_eq in Heq. subst x.
        apply omap_truthyNum_In in Hx. tauto.
      + intros (Hin & Href & Hne). split; [exact Hin|].
        exists t. split; [|apply Z.eqb_refl]. apply omap_truthyNum_In. tauto.
    - destruct (truthyString (upd_slug body)), (truthyString (upd_name body));
        reflexivity. }
  split.
  { unfold edited. reflexivity. }
  split.
  { intros Hslug. unfold edited. rewrite Hslug.
    destruct (truthyString (upd_name body)), (upd_tags body); split; reflexivity. }
  unfold edited.
  destruct (truthyString (upd_slug body)), (truthyString (upd_name body)),
    (upd_tags body); repeat split; reflexivity.
Qed.

(** X16. An update never touches the row of another post, except that a rename
    rewrites paths: of every other row at most the path changes, and
    nothing at all when the request gives no slug. *)
Theorem updatePost_frame (now postId : Z) (body : UpdateBody) (user : option Z)
    (uuids : string * string) (db db' : Db) (post' : Post) :
  updatePost now postId body user uuids db = (Ok post', db') ->
  forall i r,
    i <> postId -> find (hasId i) (posts db) = Some r ->
    exists r',
      find (hasId i) (posts db') = Some r' /\
      r' = set_slugPath (slugPath r') r /\
      (truthyString (upd_slug body) = None -> r' = r).
Proof.
  intros Hrun i r Hne Hr.
  apply updatePost_Ok in Hrun as (post & snap & Hpost & _ & _ & -> & ->).
  assert (Hpid : id (edited now body db post) = Some postId).
  { rewrite edited_id. now apply find_hasId_id in Hpost. }
  assert (Hrid : hasId postId r = false).
  { destruct (hasId postId r) eqn:Hid; [|reflexivity].
    apply hasId_iff in Hid. apply find_hasId_id in Hr. congruence. }
  simpl. rewrite find_replace by exact Hpid. unfold afterQuery.
  destruct (truthyString (upd_slug body)) as [newSlug|].
  - rewrite find_renamed, (find_app_l _ _ _ _ Hr). simpl.
    destruct (inSubtree (slugPath post) (slugPath r)).
    + unfold hasId in *. simpl. rewrite Hrid. eexists. split; [reflexivity|].
      split; [now destruct r | discriminate].
    + rewrite Hrid. exists r. split; [reflexivity|]. split; [now destruct r | reflexivity].
  - rewrite (find_app_l _ _ _ _ Hr). simpl. rewrite Hrid.
    exists r. split; [reflexivity|]. split; [now destruct r | reflexivity].
Qed.

End UpdateProperties.

(** ** Content update *)

Section ContentProperties.

Context `{Collaborators}.

Lemma updateContent_run (now postId : Z) (flat : list (string * string))
    (user : option Z) (uuids : string * string) (db db' : Db) (post' : Post) :
  updateContent now postId flat user uuids db = (Ok post', db') ->
  exists post snap,
    find (hasId postId) (posts db) = Some post /\
    id snap = Some (nextId (posts db)) /\
    snapshotOf post snap /\
    post' = set_updatedAt (Some now)
              (set_author user
                 (set_meta (updateMeta post (contentMetas flat) (Some "^content")) post)) /\
    db' = set_posts (map (fun r => if hasId postId r then post' else r)
                       (posts db ++ [snap])) db.
Proof.
  unfold updateContent. intros Hrun.
  apply rethrowing_Ok, transaction_Ok in Hrun.
  apply bind_Ok in Hrun as (found & db0 & Hfind & Hrun).
  unfold findOne, bind, readPosts, ret in Hfind. inversion Hfind; subst found db0.
  clear Hfind.
  destruct (find (hasId postId) (posts db)) as [post|] eqn:Hpost; [|discriminate].
  apply bind_Ok in Hrun as (snap & db1 & Hsnap & Hsave).
  pose proof (createPostVersion_Ok _ _ _ _ _ _ Hsnap) as (Hid & Hof & ->).
  match type of Hsave with save ?p _ = _ =>
    assert (Hpid : id p = Some postId) by (simpl; now apply find_hasId_id in Hpost);
    destruct (save_existing_Ok p post' post postId
                (set_posts (posts db ++ [snap]) db) db' Hpid
                (find_app_l _ _ [snap] _ Hpost) Hsave) as [-> ->]
  end.
  exists post, snap.
  split; [reflexivity|]. split; [exact Hid|]. split; [exact Hof|].
  split; reflexivity.
Qed.

(** X17. A content update replaces the meta of the post by what [updateMeta]
    makes of the posted content, every key under [content.], records the
    user as author and stamps [updatedAt]; nothing else of the post
    changes, and no other post changes. An unknown id fails with
    [invalid_post]. *)
Theorem updateContent_effect (now postId : Z) (flat : list (string * string))
    (user : option Z) (uuids : string * string) (db : Db) :
  (find (hasId postId) (posts db) = None ->
   updateContent now postId flat user uuids db
   = (Err (BadRequestError "invalid_post"), db)) /\
  (forall post' db',
     updateContent now postId flat user uuids db = (Ok post', db') ->
     exists post,
       find (hasId postId) (posts db) = Some post /\
       find (hasId postId) (posts db') = Some post' /\
       meta post' = updateMeta post (contentMetas flat) (Some "^content") /\
       Forall (fun m => startsWith "content." (key m) = true) (contentMetas flat) /\
       author post' = user /\
       updatedAt post' = Some now /\
       post' = set_updatedAt (updatedAt post')
                 (set_author (author post') (set_meta (meta post') post)) /\
       (forall i r, i <> postId -> find (hasId i) (posts db) = Some r ->
                    find (hasId i) (posts db') = Some r)).
Proof.
  split.
  - intros Hnone.
    unfold updateContent, transaction, findOne, bind, readPosts, ret, throw.
    now rewrite Hnone.
  - intros post' db' Hrun.
    apply updateContent_run in Hrun as (post & snap & Hpost & Hid & _ & -> & ->).
    match goal with |- context [if hasId postId _ then ?p else _] => set (saved := p) end.
    assert (Hpid : id saved = Some postId) by (simpl; now apply find_hasId_id in Hpost).
    destruct (find_after_save _ _ _ _ _ Hpost Hpid Hid) as (Hrow & _ & Hothers).
    exists post. simpl. repeat split; try assumption; try reflexivity.
    + unfold contentMetas. apply Forall_forall. intros m Hm.
      apply list_elem_of_In, in_map_iff in Hm as (kv & <- & _). simpl.
      apply (startsWith_append "content." (fst kv)).
    + intros i r Hne Hr. rewrite Hothers; [exact Hr | exact Hne |].
      now apply found_not_next in Hr.
Qed.

End ContentProperties.

(** ** Versions of a post *)

Section VersionProperties.

Context `{Collaborators}.

Lemma insertByCreatedAtDesc_perm (createdAt : Post -> Z) (p : Post) (l : list Post) :
  Permutation (insertByCreatedAtDesc createdAt p l) (p :: l).
Proof.
  induction l as [|q l IH]; simpl; [reflexivity|].
  destruct (createdAt q <=? createdAt p)%Z; [reflexivity|].
  etransitivity; [apply perm_skip, IH | apply perm_swap].
Qed.

Lemma orderByCreatedAtDesc_perm (createdAt : Post -> Z) (l : list Post) :
  Permutation (orderByCreatedAtDesc createdAt l) l.
Proof.
  induction l as [|p l IH]; simpl; [reflexivity|].
  etransitivity; [apply insertByCreatedAtDesc_perm|]. now apply perm_skip.
Qed.

Lemma insertByCreatedAtDesc_sorted (createdAt : Post -> Z) (p : Post) (l : list Post) :
  StronglySorted (newestFirst createdAt) l ->
  StronglySorted (newestFirst createdAt) (insertByCreatedAtDesc createdAt p l).
Proof.
  induction l as [|q l IH]; intros Hs; simpl.
  - repeat constructor.
  - inversion Hs as [|? ? Hs' Hall]; subst.
    destruct (createdAt q <=? createdAt p)%Z eqn:Hle.
    + apply Z.leb_le in Hle. constructor; [exact Hs|].
      constructor; [exact Hle|].
      apply List.Forall_forall. intros x Hx.
      rewrite List.Forall_forall in Hall. specialize (Hall x Hx).
      unfold newestFirst in *. lia.
    + apply Z.leb_gt in Hle. constructor; [apply IH, Hs'|].
      apply List.Forall_forall. intros x Hx.
      apply (Permutation_in _ (insertByCreatedAtDesc_perm createdAt p l)) in Hx.
      destruct Hx as [<-|Hx].
      * unfold newestFirst. lia.
      * rewrite List.Forall_forall in Hall. now apply Hall.
Qed.

Lemma orderByCreatedAtDesc_sorted (createdAt : Post -> Z) (l : list Post) :
  StronglySorted (newestFirst createdAt) (orderByCreatedAtDesc createdAt l).
Proof.
  induction l as [|p l IH]; simpl; [constructor|].
  now apply insertByCreatedAtDesc_sorted.
Qed.

Lemma isVersionRow_iff (postId : Z) (p : Post) :
  isVersionRow postId p = true <-> parent p = Some postId /\ type p = "post_version".
Proof.
  unfold isVersionRow. rewrite andb_true_iff, bool_decide_eq_true, String.eqb_eq.
  reflexivity.
Qed.

(** X18. The version list of a post holds exactly the rows of type
    [post_version] whose parent is the post, each as often as the table
    holds it, newest first; the count variant answers the length of that
    list. A post without versions, or an id of no post, gives the empty
    list and a count of zero rather than an error. *)
Theorem listVersions_newest_first (createdAt : Post -> Z) (postId : Z) (db : Db) :
  exists l,
    listVersions createdAt postId false db = VersionList l /\
    listVersions createdAt postId true db = VersionCount (List.length l) /\
    Permutation l (List.filter (isVersionRow postId) (posts db)) /\
    (forall p, In p l <->
               In p (posts db) /\ parent p = Some postId /\ type p = "post_version") /\
    StronglySorted (newestFirst createdAt) l /\
    ((forall p, In p (posts db) -> parent p <> Some postId) -> l = []).
Proof.
  exists (orderByCreatedAtDesc createdAt (List.filter (isVersionRow postId) (posts db))).
  pose proof (orderByCreatedAtDesc_perm createdAt
                (List.filter (isVersionRow postId) (posts db))) as Hperm.
  split; [reflexivity|]. split.
  { unfold listVersions. simpl. f_equal. symmetry. apply Permutation_length, Hperm. }
  split; [exact Hperm|]. split.
  { intros p. rewrite <- isVersionRow_iff, <- filter_In. split.
    - apply Permutation_in, Hperm.
    - apply Permutation_in. symmetry. exact Hperm. }
  split; [apply orderByCreatedAtDesc_sorted|].
  intros Hnone.
  assert (Hempty : List.filter (isVersionRow postId) (posts db) = []).
  { destruct (List.filter (isVersionRow postId) (posts db)) as [|p l] eqn:Hf;
      [reflexivity|].
    assert (Hin : In p (List.filter (isVersionRow postId) (posts db)))
      by (rewrite Hf; now left).
    apply filter_In in Hin as [Hin Hrow]. apply isVersionRow_iff in Hrow as [Hp _].
    now apply Hnone in Hin. }
  rewrite Hempty. reflexivity.
Qed.

Lemma unique_find (rows : list Post) (i : Z) (p r : Post) :
  List.NoDup (map id rows) ->
  find (hasId i) rows = Some p -> In r rows -> hasId i r = true -> r = p.
Proof.
  induction rows as [|a rows IH]; intros Hnd Hfind Hin Hr; [destruct Hin|].
  inversion Hnd as [|? ? Hnotin Hnd']; subst. simpl in Hfind.
  destruct (hasId i a) eqn:Ha.
  - inversion Hfind; subst a. destruct Hin as [->|Hin]; [reflexivity|].
    exfalso. apply Hnotin. apply hasId_iff in Ha, Hr. rewrite Ha, <- Hr.
    now apply in_map.
  - destruct Hin as [->|Hin]; [congruence|]. now apply IH.
Qed.

Lemma filter_length_map (f : Post -> bool) (g : Post -> Post) (l : list Post) :
  (forall r, In r l -> f (g r) = f r) ->
  List.length (List.filter f (map g l)) = List.length (List.filter f l).
Proof.
  induction l as [|a l IH]; intros Hg; [reflexivity|].
  simpl. rewrite (Hg a) by now left.
  destruct (f a); simpl; rewrite IH; auto; intros r Hr; apply Hg; now right.
Qed.

(** The version rows of [q] after an edit of [postId] that appended [snap]
    and replaced the row of the post. *)
Lemma versions_after_edit (q postId : Z) (post post' snap : Post)
    (h : Post -> Post) (rows : list Post) :
  List.NoDup (map id rows) ->
  find (hasId postId) rows = Some post ->
  id snap = Some (nextId rows) -> snapshotOf post snap ->
  type post' = type post -> parent post' = parent post ->
  (forall r, id (h r) = id r /\ type (h r) = type r /\ parent (h r) = parent r) ->
  List.length (List.filter (isVersionRow q)
                 (map (fun r => if hasId postId r then post' else r)
                    (map h (rows ++ [snap]))))
  = (List.length (List.filter (isVersionRow q) rows)
     + if bool_decide (q = postId) then 1 else 0)%nat.
Proof.
  intros Hnd Hpost Hid Hof Htype Hparent Hh.
  rewrite map_map, filter_length_map.
  - rewrite List.filter_app, List.length_app. f_equal. simpl.
    destruct Hof as (Hst & Hsp & _). unfold isVersionRow. rewrite Hst, Hsp.
    rewrite (find_hasId_id _ _ _ Hpost). simpl.
    destruct (bool_decide (q = postId)) eqn:Hq.
    + apply bool_decide_eq_true in Hq. subst q.
      rewrite bool_decide_eq_true_2 by reflexivity. reflexivity.
    + apply bool_decide_eq_false in Hq.
      rewrite bool_decide_eq_false_2 by congruence. reflexivity.
  - intros r Hin. destruct (Hh r) as (Hhid & Hhtype & Hhparent).
    rewrite (hasId_same_id postId (h r) r Hhid).
    destruct (hasId postId r) eqn:Hr.
    + apply in_app_or in Hin as [Hin|[<-|[]]].
      * rewrite (unique_find rows postId post r Hnd Hpost Hin Hr).
        unfold isVersionRow. now rewrite Htype, Hparent.
      * apply hasId_iff in Hr. apply found_not_next in Hpost. congruence.
    + unfold isVersionRow. now rewrite Hhtype, Hhparent.
Qed.

Lemma afterQuery_map (body : UpdateBody) (db : Db) (post : Post) (rows : list Post) :
  exists h, afterQuery body db post rows = map h rows /\
            forall r, id (h r) = id r /\ type (h r) = type r /\ parent (h r) = parent r.
Proof.
  unfold afterQuery, renamed. destruct (truthyString (upd_slug body)) as [newSlug|].
  - eexists. split; [reflexivity|]. intros r. cbv beta.
    destruct (inSubtree (slugPath post) (slugPath r)); repeat split; reflexivity.
  - exists (fun r => r). split; [now rewrite map_id | auto].
Qed.

(** X19. Every edit of a post that goes through (content update, update of
    slug, name or tags, restore) makes the version count of that post grow
    by exactly one, and leaves the version count of every other post as it
    was, in a table whose ids are distinct. *)
Theorem edits_add_one_version (createdAt : Post -> Z) (now postId versionId : Z)
    (body : UpdateBody) (flat : list (string * string)) (user : option Z)
    (uuids : string * string) (db db' : Db) (q : Z) :
  List.NoDup (map id (posts db)) ->
  (exists p, updateContent now postId flat user uuids db = (Ok p, db')) \/
  (exists p, updatePost now postId body user uuids db = (Ok p, db')) \/
  (exists p, restoreVersion postId versionId user uuids db = (Ok p, db')) ->
  exists n,
    listVersions createdAt q true db = VersionCount n /\
    listVersions createdAt q true db'
    = VersionCount (if bool_decide (q = postId) then S n else n).
Proof.
  intros Hnd Hrun. eexists. split; [reflexivity|].
  unfold listVersions. f_equal.
  assert (Hgoal : List.length (List.filter (isVersionRow q) (posts db'))
                  = (List.length (List.filter (isVersionRow q) (posts db))
                     + if bool_decide (q = postId) then 1 else 0)%nat).
  { destruct Hrun as [[p Hrun]|[[p Hrun]|[p Hrun]]].
    - apply updateContent_run in Hrun as (post & snap & Hpost & Hid & Hof & -> & ->).
      cbn [posts set_posts]. rewrite <- (map_id (posts db ++ [snap])) at 1.
      now apply (versions_after_edit q postId post _ snap (fun r => r) (posts db)).
    - apply updatePost_Ok in Hrun as (post & snap & Hpost & _ & Hsnap & -> & ->).
      apply createPostVersion_Ok in Hsnap as (Hid & Hof & _).
      cbn [posts set_posts].
      destruct (afterQuery_map body db post (posts db ++ [snap])) as (h & -> & Hh).
      apply (versions_after_edit q postId post _ snap h (posts db)); try assumption.
      + unfold edited.
        destruct (truthyString (upd_slug body)), (truthyString (upd_name body)),
          (upd_tags body); reflexivity.
      + unfold edited.
        destruct (truthyString (upd_slug body)), (truthyString (upd_name body)),
          (upd_tags body); reflexivity.
    - apply restoreVersion_Ok in Hrun as (post & v & snap & Hpost & _ & Hsnap & -> & ->).
      apply createPostVersion_Ok in Hsnap as (Hid & Hof & _).
      cbn [posts set_posts]. rewrite <- (map_id (posts db ++ [snap])) at 1.
      now apply (versions_after_edit q postId post _ snap (fun r => r) (posts db)). }
  rewrite Hgoal. destruct (bool_decide (q = postId)); lia.
Qed.

End VersionProperties.

(** ** Restore after an update *)

Section UndoProperties.

Context `{Collaborators}.

Lemma updatePost_row (now postId : Z) (body : UpdateBody) (user : option Z)
    (uuids : string * string) (db db' : Db) (post' : Post) :
  updatePost now postId body user uuids db = (Ok post', db') ->
  find (hasId postId) (posts db') = Some post'.
Proof.
  intros Hrun.
  apply updatePost_Ok in Hrun as (post & snap & Hpost & _ & _ & -> & ->).
  assert (Hpid : id (edited now body db post) = Some postId).
  { rewrite edited_id. now apply find_hasId_id in Hpost. }
  simpl. rewrite find_replace by exact Hpid.
  destruct (afterQuery_map body db post (posts db ++ [snap])) as (h & -> & Hh).
  rewrite find_hasId_map by (intros r _; apply Hh).
  rewrite (find_app_l _ _ _ _ Hpost). simpl.
  rewrite (hasId_same_id postId (h post) post) by apply Hh.
  apply find_some in Hpost as [_ ->]. reflexivity.
Qed.

(** The row an update leaves under the id of its snapshot. *)
Lemma updatePost_snapshot_row (now postId : Z) (body : UpdateBody) (user : option Z)
    (uuids : string * string) (db db' : Db) (post' v : Post) :
  updatePost now postId body user uuids db = (Ok post', db') ->
  In v (posts db') -> id v = Some (nextId (posts db)) ->
  exists post, find (hasId postId) (posts db) = Some post /\ snapshotOf post v.
Proof.
  intros Hrun Hin Hv.
  apply updatePost_Ok in Hrun as (post & snap & Hpost & _ & Hsnap & -> & ->).
  apply createPostVersion_Ok in Hsnap as (Hid & Hof & _).
  exists post. split; [exact Hpost|].
  cbn [posts set_posts] in Hin.
  assert (Hgen : forall h : Post -> Post,
            (forall r, h r = set_slugPath (slugPath (h r)) r) ->
            In v (map (fun r => if hasId postId r then edited now body db post else r)
                    (map h (posts db ++ [snap]))) ->
            snapshotOf post v).
  { intros h Hh Hin'.
    apply in_map_iff in Hin' as (r1 & <- & Hin').
    apply in_map_iff in Hin' as (r & <- & Hin').
    assert (Hhid : id (h r) = id r) by (rewrite Hh; reflexivity).
    rewrite (hasId_same_id postId (h r) r Hhid) in Hv |- *.
    destruct (hasId postId r) eqn:Hr.
    - rewrite edited_id, (find_hasId_id _ _ _ Hpost) in Hv.
      apply found_not_next in Hpost. congruence.
    - rewrite Hhid in Hv. apply in_app_or in Hin' as [Hin'|[<-|[]]].
      + now apply fresh_next in Hin'.
      + rewrite Hh. exact Hof. }
  unfold afterQuery, renamed in Hin.
  destruct (truthyString (upd_slug body)) as [newSlug|].
  - revert Hin. apply Hgen. intros r.
    destruct (inSubtree (slugPath post) (slugPath r)); [reflexivity | now destruct r].
  - rewrite <- (map_id (posts db ++ [snap])) in Hin.
    revert Hin. apply Hgen. intros r. now destruct r.
Qed.

(** X20. An update followed by the restore of the snapshot it took (the
    version whose id is the next id of the table before the update) puts
    the name and the tags of the post back to what they were; a rename is
    not undone: the slug and the path stay as the update left them, and so
    do the type, the parent and the publication state. *)
Theorem restoreVersion_undoes_update (now postId : Z) (body : UpdateBody)
    (user user' : option Z) (uuids uuids' : string * string)
    (db db1 db2 : Db) (p1 p2 : Post) :
  updatePost now postId body user uuids db = (Ok p1, db1) ->
  restoreVersion postId (nextId (posts db)) user' uuids' db1 = (Ok p2, db2) ->
  exists post,
    find (hasId postId) (posts db) = Some post /\
    find (hasId postId) (posts db2) = Some p2 /\
    name p2 = name post /\ tags p2 = tags post /\
    slug p2 = slug p1 /\ slugPath p2 = slugPath p1 /\
    type p2 = type post /\ parent p2 = parent post /\
    status p2 = status p1 /\ publishedAt p2 = publishedAt p1 /\
    publishedFrom p2 = publishedFrom p1 /\ publishedUntil p2 = publishedUntil p1.
Proof.
  intros Hupd Hres.
  pose proof (updatePost_row _ _ _ _ _ _ _ _ Hupd) as Hrow.
  apply restoreVersion_Ok in Hres as (q & v & snap & Hq & Hv & Hsnap & -> & ->).
  rewrite Hrow in Hq. inversion Hq; subst q. clear Hq.
  apply createPostVersion_Ok in Hsnap as (Hid & _ & _).
  pose proof (find_some _ _ Hv) as [Hvin Hvis].
  unfold isVersionOf in Hvis. apply andb_true_iff in Hvis as [Hvis _].
  apply andb_true_iff in Hvis as [Hvid _]. apply hasId_iff in Hvid.
  destruct (updatePost_snapshot_row _ _ _ _ _ _ _ _ v Hupd Hvin Hvid)
    as (post & Hpost & Hof).
  assert (Hpid : id (restored p1 v) = Some postId).
  { simpl. now apply find_hasId_id in Hrow. }
  destruct (find_after_save _ _ _ _ _ Hrow Hpid Hid) as (Hrow2 & _ & _).
  exists post. split; [exact Hpost|]. split; [exact Hrow2|].
  destruct Hof as (_ & _ & Hname & _ & Htags & _).
  pose proof (updatePost_Ok _ _ _ _ _ _ _ _ Hupd)
    as (post0 & snap0 & Hpost0 & _ & _ & Hp1 & _).
  rewrite Hpost in Hpost0. inversion Hpost0; subst post0. clear Hpost0.
  cbn [restored name tags slug slugPath type parent status publishedAt publishedFrom
       publishedUntil set_name set_content set_tags set_meta].
  rewrite Hname, Htags, Hp1. unfold edited.
  destruct (truthyString (upd_slug body)), (truthyString (upd_name body)),
    (upd_tags body); repeat split; reflexivity.
Qed.

End UndoProperties.

(** ** Publish: what stays *)

Section PublishFrame.

Context `{Collaborators}.

(** X21. A bulk publish or unpublish adds no row, removes none and keeps their
    order; of a row it changes at most the status, [publishedAt], the
    window and [updatedAt], never the name, slug, path, type, parent,
    content type, meta, tags, author or content; the tag and asset tables
    stay. Without [recursive] a post whose id the request does not name is
    left exactly as it was. *)
Theorem publishPosts_frame (now : Z) (body : PublishBody) (db db' : Db)
    (res : list Post) :
  publishPosts now body db = (Ok res, db') ->
  map id (posts db') = map id (posts db) /\
  tagTable db' = tagTable db /\ assetTable db' = assetTable db /\
  forall i p,
    find (hasId i) (posts db) = Some p ->
    exists p',
      find (hasId i) (posts db') = Some p' /\
      p' = set_publication (publishedAt p') (status p') (publishedFrom p')
             (publishedUntil p') (updatedAt p') p /\
      (recursive body = false -> ~ In i (ids body) -> p' = p).
Proof.
  intros Hrun. apply publishPosts_Ok in Hrun as [-> _].
  split; [|split; [reflexivity|split; [reflexivity|]]].
  - cbn [posts set_posts]. unfold published. rewrite map_map. apply map_ext.
    intros r. destruct (idIn _ r); [apply publishSet_id | reflexivity].
  - intros i p Hp. cbn [posts set_posts]. rewrite find_published, Hp. simpl.
    destruct (idIn _ p) eqn:Htarget.
    + eexists. split; [reflexivity|]. split.
      * unfold publishSet. destruct (publish body); reflexivity.
      * intros Hrec Hout. exfalso. apply Hout.
        pose proof (find_hasId_id _ _ _ Hp) as Hid.
        apply (idIn_iff _ p i Hid) in Htarget.
        unfold publishTargets in Htarget. rewrite Hrec in Htarget.
        apply idsOf_In in Htarget as (r & Hr & Hrid).
        apply filter_In in Hr as [_ Hr]. now apply (idIn_iff _ r i Hrid).
    + exists p. split; [reflexivity|]. split; [now destruct p | reflexivity].
Qed.

End PublishFrame.

(** ** Reading a post and its versions *)

Section ReadProperties.

Context `{Collaborators}.

(** What the three edits have in common: the table they leave is the old
    one with the snapshot appended, paths rewritten at most, and the row of
    the post replaced. *)
Lemma edit_shape (now postId versionId : Z) (body : UpdateBody)
    (flat : list (string * string)) (user : option Z) (uuids : string * string)
    (db db' : Db) :
  (exists p, updateContent now postId flat user uuids db = (Ok p, db')) \/
  (exists p, updatePost now postId body user uuids db = (Ok p, db')) \/
  (exists p, restoreVersion postId versionId user uuids db = (Ok p, db')) ->
  exists post post' snap (h : Post -> Post),
    find (hasId postId) (posts db) = Some post /\
    id post' = Some postId /\
    id snap = Some (nextId (posts db)) /\
    snapshotOf post snap /\
    (forall r, h r = set_slugPath (slugPath (h r)) r) /\
    posts db' = map (fun r => if hasId postId r then post' else r)
                  (map h (posts db ++ [snap])).
Proof.
  intros [[p Hrun]|[[p Hrun]|[p Hrun]]].
  - apply updateContent_run in Hrun as (post & snap & Hpost & Hid & Hof & -> & ->).
    exists post, (set_updatedAt (Some now)
                    (set_author user
                       (set_meta (updateMeta post (contentMetas flat) (Some "^content"))
                          post))), snap, (fun r => r).
    split; [exact Hpost|]. split; [|split; [exact Hid|split; [exact Hof|split]]].
    + simpl. now apply find_hasId_id in Hpost.
    + intros r. now destruct r.
    + cbn [posts set_posts]. now rewrite map_id.
  - apply updatePost_Ok in Hrun as (post & snap & Hpost & _ & Hsnap & -> & ->).
    apply createPostVersion_Ok in Hsnap as (Hid & Hof & _).
    exists post, (edited now body db post).
    assert (Hh : exists h : Post -> Post,
              afterQuery body db post (posts db ++ [snap]) = map h (posts db ++ [snap]) /\
              forall r, h r = set_slugPath (slugPath (h r)) r).
    { unfold afterQuery, renamed. destruct (truthyString (upd_slug body)) as [newSlug|].
      - eexists. split; [reflexivity|]. intros r. cbv beta.
        destruct (inSubtree (slugPath post) (slugPath r)); [reflexivity | now destruct r].
      - exists (fun r => r). split; [now rewrite map_id | intros r; now destruct r]. }
    destruct Hh as (h & Hq & Hh). exists snap, h.
    split; [exact Hpost|]. split; [|split; [exact Hid|split; [exact Hof|split]]].
    + rewrite edited_id. now apply find_hasId_id in Hpost.
    + exact Hh.
    + cbn [posts set_posts]. now rewrite Hq.
  - apply restoreVersion_Ok in Hrun as (post & v & snap & Hpost & _ & Hsnap & -> & ->).
    apply createPostVersion_Ok in Hsnap as (Hid & Hof & _).
    exists post, (restored post v), snap, (fun r => r).
    split; [exact Hpost|]. split; [|split; [exact Hid|split; [exact Hof|split]]].
    + simpl. now apply find_hasId_id in Hpost.
    + intros r. now destruct r.
    + cbn [posts set_posts]. now rewrite map_id.
Qed.

(** The only row under the next id after an edit is the snapshot. *)
Lemma snapshot_row (rows : list Post) (postId : Z) (post post' snap v : Post)
    (h : Post -> Post) :
  find (hasId postId) rows = Some post ->
  id post' = Some postId ->
  id snap = Some (nextId rows) ->
  (forall r, h r = set_slugPath (slugPath (h r)) r) ->
  In v (map (fun r => if hasId postId r then post' else r) (map h (rows ++ [snap]))) ->
  id v = Some (nextId rows) ->
  v = h snap.
Proof.
  intros Hpost Hpid Hid Hh Hin Hv.
  apply in_map_iff in Hin as (r1 & <- & Hin).
  apply in_map_iff in Hin as (r & <- & Hin).
  assert (Hhid : id (h r) = id r) by (rewrite Hh; reflexivity).
  rewrite (hasId_same_id postId (h r) r Hhid) in Hv |- *.
  destruct (hasId postId r) eqn:Hr.
  - apply found_not_next in Hpost. congruence.
  - rewrite Hhid in Hv. apply in_app_or in Hin as [Hin|[<-|[]]].
    + now apply fresh_next in Hin.
    + reflexivity.
Qed.

(** X22. After an edit of a post that went through, reading the post with
    [versionId] set to the id the snapshot took (the next id of the table
    before the edit) succeeds and shows, under the id of the post, the
    name, tags, meta and content type the post had before the edit. *)
Theorem getPost_shows_state_before_edit (now postId versionId : Z) (body : UpdateBody)
    (flat : list (string * string)) (user : option Z) (uuids : string * string)
    (db db' : Db) :
  (exists p, updateContent now postId flat user uuids db = (Ok p, db')) \/
  (exists p, updatePost now postId body user uuids db = (Ok p, db')) \/
  (exists p, restoreVersion postId versionId user uuids db = (Ok p, db')) ->
  exists post view,
    find (hasId postId) (posts db) = Some post /\
    getPost postId (Some (nextId (posts db))) db' = Ok view /\
    id (view_post view) = Some postId /\
    view_versionId view = Some (nextId (posts db)) /\
    type (view_post view) = "post_version" /\
    name (view_post view) = name post /\
    tags (view_post view) = tags post /\
    map (fun m => (key m, value m)) (meta (view_post view))
    = map (fun m => (key m, value m)) (meta post) /\
    contentType (view_post view) = contentType post.
Proof.
  intros Hrun.
  apply edit_shape in Hrun as (post & post' & snap & h & Hpost & Hpid & Hid & Hof & Hh & Hrows).
  assert (Hhid : forall r, id (h r) = id r) by (intros r; rewrite Hh; reflexivity).
  assert (Hrow : find (hasId postId) (posts db') = Some post').
  { rewrite Hrows, find_replace by exact Hpid.
    rewrite find_hasId_map by (intros r _; apply Hhid).
    rewrite (find_app_l _ _ _ _ Hpost). simpl.
    rewrite (hasId_same_id postId (h post) post) by apply Hhid.
    apply find_some in Hpost as [_ ->]. reflexivity. }
  assert (Hsnap : snapshotOf post (h snap)) by (rewrite Hh; exact Hof).
  assert (Hfresh : hasId postId snap = false).
  { destruct (hasId postId snap) eqn:Hs; [|reflexivity].
    apply hasId_iff in Hs. apply found_not_next in Hpost. congruence. }
  exists post. unfold getPost. rewrite Hrow.
  destruct (find (fun p => hasId (nextId (posts db)) p && _) (posts db'))
    as [row|] eqn:Hfind.
  - eexists. split; [exact Hpost|]. split; [reflexivity|].
    apply find_some in Hfind as [Hin Hmatch].
    apply andb_true_iff in Hmatch as [Hv _]. apply hasId_iff in Hv.
    rewrite Hrows in Hin.
    rewrite (snapshot_row _ _ _ _ _ _ _ Hpost Hpid Hid Hh Hin Hv).
    destruct Hsnap as (H1 & H2 & H3 & H4 & H5 & H6).
    cbn [view_post view_versionId id type name tags meta contentType set_id].
    rewrite Hhid. auto 10.
  - exfalso. pose proof (find_none _ _ Hfind (h snap)) as Hnone.
    cbv beta in Hnone.
    destruct Hsnap as (_ & Hparent & _).
    rewrite Hparent, Hpid, (find_hasId_id _ _ _ Hpost) in Hnone.
    rewrite bool_decide_eq_true_2, andb_true_r in Hnone by reflexivity.
    assert (hasId (nextId (posts db)) (h snap) = true)
      by (apply hasId_iff; now rewrite Hhid).
    assert (Hin : In (h snap) (posts db')).
    { rewrite Hrows. apply in_map_iff. exists (h snap). split.
      - now rewrite (hasId_same_id postId (h snap) snap (Hhid snap)), Hfresh.
      - apply in_map, in_or_app. right. now left. }
    apply Hnone in Hin. congruence.
Qed.

(** X23. Reading a post fails with [invalid_post] when no post has the id, with
    or without [versionId]; without [versionId] it answers the post. With
    [versionId] it answers a row that has that id and the post as parent,
    whatever the type of the row, under the id of the post, and fails with
    [invalid_post_version] only when the table has no such row. *)
Theorem getPost_view (postId : Z) (versionId : option Z) (db : Db) :
  (find (hasId postId) (posts db) = None ->
   getPost postId versionId db = Err (BadRequestError "invalid_post")) /\
  (forall post,
     find (hasId postId) (posts db) = Some post ->
     match versionId with
     | None => getPost postId versionId db
               = Ok {| view_post := post; view_versionId := None |}
     | Some v =>
         (forall e, getPost postId versionId db = Err e ->
            e = BadRequestError "invalid_post_version" /\
            forall row, In row (posts db) ->
                        ~ (id row = Some v /\ parent row = Some postId)) /\
         (forall view, getPost postId versionId db = Ok view ->
            exists row,
              In row (posts db) /\ id row = Some v /\ parent row = Some postId /\
              view = {| view_post := set_id (Some postId) row;
                        view_versionId := Some v |})
     end).
Proof.
  split.
  - intros Hnone. unfold getPost. now rewrite Hnone.
  - intros post Hpost. unfold getPost. rewrite Hpost.
    pose proof (find_hasId_id _ _ _ Hpost) as Hpid.
    destruct versionId as [v|]; [|reflexivity].
    destruct (find (fun p => hasId v p && _) (posts db)) as [row|] eqn:Hfind; split.
    + discriminate.
    + intros view Hview. inversion Hview; subst view. clear Hview.
      apply find_some in Hfind as [Hin Hmatch].
      apply andb_true_iff in Hmatch as [Hv Hparent].
      apply hasId_iff in Hv. apply bool_decide_eq_true in Hparent.
      exists row. rewrite Hv, Hpid. repeat split; [exact Hin | congruence].
    + intros e He. inversion He; subst e. split; [reflexivity|].
      intros row Hin [Hv Hparent].
      pose proof (find_none _ _ Hfind row Hin) as Hnone. cbv beta in Hnone.
      apply hasId_iff in Hv. rewrite Hv in Hnone.
      rewrite bool_decide_eq_true_2 in Hnone by congruence. discriminate.
    + discriminate.
Qed.

End ReadProperties.

(** ** Failed edits *)

Section FailedEdits.

Context `{Collaborators}.


End FailedEdits.

(** ** Environment *)

Section EnvProperties.

Lemma applyDefaults_lookup (defaults : list (string * string)) (env : gmap string string)
    (k : string) :
  applyDefaults defaults env !! k
  = match env !! k with
    | Some v => Some v
    | None => snd <$> find (fun kv => String.eqb (fst kv) k) defaults
    end.
Proof.
  unfold applyDefaults. revert env.
  induction defaults as [|[a v] l IH]; intros env; simpl.
  - now destruct (env !! k).
  - rewrite IH. destruct (String.eqb_spec a k) as [->|Hne].
    + destruct (env !! k) eqn:Hk.
      * now rewrite Hk.
      * now rewrite lookup_insert_eq.
    + destruct (env !! a); [reflexivity|].
      now rewrite lookup_insert_ne by exact Hne.
Qed.

(** X25. Applying the defaults never overrides a variable that is set, the
    empty string included; each of the eight default names that is unset
    gets its default; no other name becomes defined. *)
Theorem applyDefaults_fills_unset (databasePath : string) (env : gmap string string) :
  (forall k v, env !! k = Some v ->
               applyDefaults (envDefaults databasePath) env !! k = Some v) /\
  (forall k d, In (k, d) (envDefaults databasePath) -> env !! k = None ->
               applyDefaults (envDefaults databasePath) env !! k = Some d) /\
  (forall k, env !! k = None ->
             (forall d, ~ In (k, d) (envDefaults databasePath)) ->
             applyDefaults (envDefaults databasePath) env !! k = None).
Proof.
  split; [|split].
  - intros k v Hk. now rewrite applyDefaults_lookup, Hk.
  - intros k d Hin Hk. rewrite applyDefaults_lookup, Hk.
    simpl in Hin.
    repeat (destruct Hin as [Hin|Hin]; [inversion Hin; subst; reflexivity|]).
    destruct Hin.
  - intros k Hk Hout. rewrite applyDefaults_lookup, Hk.
    destruct (find _ (envDefaults databasePath)) as [[a d]|] eqn:Hfind; [|reflexivity].
    apply find_some in Hfind as [Hin Heq]. simpl in Heq.
    apply String.eqb_eq in Heq. subst a. now apply Hout in Hin.
Qed.

Lemma fold_insert_lookup (f : string -> string) (l : list (string * string))
    (m : gmap string string) (k : string) :
  (forall a b, f a = f b -> a = b) ->
  NoDup l.*1 ->
  fold_left (fun o kv => <[f (fst kv) := snd kv]> o) l m !! f k
  = match (list_to_map l : gmap string string) !! k with
    | Some v => Some v
    | None => m !! f k
    end.
Proof.
  intros Hinj. revert m. induction l as [|[a v] l IH]; intros m Hnd; [reflexivity|].
  rewrite fmap_cons in Hnd. apply NoDup_cons in Hnd as [Hout Hnd]. cbn [fst] in Hout.
  cbn [fold_left fst snd]. rewrite IH by exact Hnd. rewrite list_to_map_cons.
  destruct (decide (a = k)) as [->|Hne].
  - rewrite (not_elem_of_list_to_map_1 l k Hout), !lookup_insert_eq. reflexivity.
  - rewrite (lookup_insert_ne (list_to_map l) a k) by exact Hne.
    destruct (list_to_map l !! k); [reflexivity|].
    apply lookup_insert_ne. intros Heq. apply Hne, Hinj, Heq.
Qed.

Lemma fold_insert_image (f : string -> string) (l : list (string * string))
    (m : gmap string string) (k' v : string) :
  fold_left (fun o kv => <[f (fst kv) := snd kv]> o) l m !! k' = Some v ->
  m !! k' = Some v \/ exists k, k' = f k.
Proof.
  revert m. induction l as [|[a w] l IH]; intros m Hk; [now left|].
  simpl in Hk. apply IH in Hk as [Hk|Hk]; [|now right].
  destruct (decide (f a = k')) as [<-|Hne]; [right; eauto|].
  left. now rewrite lookup_insert_ne in Hk.
Qed.

Lemma mapKeys_lookup (f : string -> string) (env : gmap string string) (k : string) :
  (forall a b, f a = f b -> a = b) ->
  mapKeys f env !! f k = env !! k.
Proof.
  intros Hinj. unfold mapKeys.
  rewrite fold_insert_lookup by (exact Hinj || apply NoDup_fst_map_to_list).
  rewrite list_to_map_to_list, lookup_empty. now destruct (env !! k).
Qed.

Lemma envKey_inj (withPrefix : bool) (a b : string) :
  envKey withPrefix a = envKey withPrefix b -> a = b.
Proof.
  unfold envKey. destruct withPrefix; [|trivial].
  simpl. intros Heq. now inversion Heq.
Qed.

(** X26. The definitions handed to the bundler hold, for every variable of the
    environment and for nothing else, the JSON string literal of its
    value: under the name prefixed with [process.env.] by default, under
    the bare name when [withPrefix] is false. *)
Theorem defineAllEnv_lookup (env : gmap string string) :
  (forall k, defineAllEnv true env !! ("process.env." ++ k)
             = JSON_stringify <$> env !! k) /\
  (forall k' d, defineAllEnv true env !! k' = Some d ->
                exists k v, k' = "process.env." ++ k /\ env !! k = Some v /\
                            d = JSON_stringify v) /\
  (forall k, defineAllEnv false env !! k = JSON_stringify <$> env !! k).
Proof.
  unfold defineAllEnv. split; [|split].
  - intros k. rewrite lookup_fmap.
    now rewrite <- (mapKeys_lookup (envKey true) env k (envKey_inj true)).
  - intros k' d Hk. apply lookup_fmap_Some in Hk as (v & <- & Hk).
    pose proof Hk as Himage. unfold mapKeys in Himage.
    apply fold_insert_image in Himage as [Himage|[k ->]];
      [now rewrite lookup_empty in Himage|].
    rewrite (mapKeys_lookup (envKey true) env k (envKey_inj true)) in Hk.
    exists k, v. auto.
  - intros k. rewrite lookup_fmap.
    now rewrite <- (mapKeys_lookup (envKey false) env k (envKey_inj false)).
Qed.

(** X27. The public definitions are exactly the variables whose name starts
    with [PUBLIC_], under their bare names, each with the JSON string
    literal of its value; no other variable of the environment is in
    them. *)
Theorem definePublicEnv_lookup (env : gmap string string) (k : string) :
  definePublicEnv env !! k
  = if startsWith "PUBLIC_" k then JSON_stringify <$> env !! k else None.
Proof.
  unfold definePublicEnv, defineAllEnv. rewrite map_lookup_filter, lookup_fmap.
  change (mapKeys (envKey false) env !! k)
    with (mapKeys (envKey false) env !! envKey false k).
  rewrite (mapKeys_lookup (envKey false) env k (envKey_inj false)).
  destruct (env !! k) as [v|]; simpl.
  - destruct (startsWith "PUBLIC_" k) eqn:Hk.
    + now rewrite option_guard_True.
    + rewrite option_guard_False; [reflexivity | simpl; congruence].
  - now destruct (startsWith "PUBLIC_" k).
Qed.

End EnvProperties.

(** ** The further properties on the examples *)

Lemma isPostPublished_interval_witness : isPostPublished 300 (Some scheduled) = true.
Proof.
  apply (isPostPublished_interval 250 300 400 scheduled); [reflexivity | reflexivity | lia].
Defined.

Lemma isPostPublished_inverted_window_witness :
  isPostPublished 150 (Some inverted) = false.
Proof.
  apply (isPostPublished_inverted_window 150 200 100 inverted);
    [reflexivity | reflexivity | lia].
Defined.

(** Post 2 of the broken site is a draft: a nested compile yields [null]. *)
Lemma compilePost_outcomes_witness :
  @compilePost treeStore 1 brokenDb 0 None (Some 2%Z) true None 1 = Some (Ok JNull) /\
  outcomeOf (resolvePost brokenDb 0 None (Some 2%Z) None) true (Ok JNull).
Proof.
  assert (Hrun : @compilePost treeStore 1 brokenDb 0 None (Some 2%Z) true None 1
                 = Some (Ok JNull)) by (vm_compute; reflexivity).
  split; [exact Hrun|].
  exact (@compilePost_outcomes treeStore 1 brokenDb 0%Z None (Some 2%Z) true None 1
           (Ok JNull) Hrun).
Defined.

Lemma injectReferences_fills_paths_witness :
  member "hero"
    (injectReferences [("hero", Some 9%Z)] {[ "9" := JObj [("id", JNum 9)] ]}
       (JObj [("hero", JStr "post:9"); ("title", JStr "Home")]))
  = JObj [("id", JNum 9)] /\
  member "title"
    (injectReferences [("hero", Some 9%Z)] {[ "9" := JObj [("id", JNum 9)] ]}
       (JObj [("hero", JStr "post:9"); ("title", JStr "Home")]))
  = JStr "Home".
Proof.
  assert (Hkeys : Forall plainKey (map fst [("hero", Some 9%Z)])).
  { repeat constructor. }
  destruct (injectReferences_fills_paths [("hero", Some 9%Z)]
              {[ "9" := JObj [("id", JNum 9)] ]}
              [("hero", JStr "post:9"); ("title", JStr "Home")] Hkeys)
    as (Hin & Hout & _).
  split.
  - rewrite (Hin "hero") by (simpl; tauto). vm_compute. reflexivity.
  - rewrite (Hout "title") by (simpl; intros [Heq|[]]; discriminate). reflexivity.
Defined.

Lemma copyPost_only_appends_witness :
  exists created db',
    @copyPost treeStore 1 treeCopy (Some 7%Z) siteDb = (Ok created, db') /\
    db' = set_posts (posts siteDb ++ created) siteDb /\
    List.NoDup (map id created).
Proof.
  assert (Hrun : exists created db',
            @copyPost treeStore 1 treeCopy (Some 7%Z) siteDb = (Ok created, db'))
    by (eexists; eexists; vm_compute; reflexivity).
  destruct Hrun as (created & db' & Hrun).
  exists created, db'. split; [exact Hrun|].
  destruct (@copyPost_only_appends treeStore 1 treeCopy (Some 7%Z) siteDb db' created Hrun)
    as (Hdb & _ & _ & Hnd).
  split; assumption.
Defined.

Lemma copyPost_single_witness :
  exists created db',
    @copyPost treeStore 2 plainCopy (Some 7%Z) siteDb = (Ok created, db') /\
    exists copy, created = [copy] /\ slugPath copy = "copy" /\ type copy = "page".
Proof.
  assert (Hrun : exists created db',
            @copyPost treeStore 2 plainCopy (Some 7%Z) siteDb = (Ok created, db'))
    by (eexists; eexists; vm_compute; reflexivity).
  destruct Hrun as (created & db' & Hrun).
  exists created, db'. split; [exact Hrun|].
  destruct (@copyPost_single treeStore 2 plainCopy (Some 7%Z) siteDb db' created
              eq_refl Hrun)
    as (source & copy & Hsource & Hcreated & _ & _ & Hpath & _ & Htype & _).
  exists copy. split; [exact Hcreated|]. split; [exact Hpath|].
  rewrite Htype. vm_compute in Hsource. inversion Hsource. reflexivity.
Defined.


Lemma getParent_strips_last_segment_witness :
  getParent (posts siteDb) "a/b/c" = Some (row 2 "page" "b" "a/b" "draft" (Some 1%Z)
                                             [("content.title", "Hello")]).
Proof.
  assert (Hseg : slashless "c") by (repeat constructor; discriminate).
  exact (proj1 (getParent_strips_last_segment (posts siteDb) "a/b" "c" Hseg)).
Defined.

Lemma createPost_path_rule_witness :
  exists post db',
    @createPost treeStore siteTypes newPage (Some 7%Z) siteDb = (Ok post, db') /\
    id post = Some 6%Z /\
    exists q, find (hasId 2) (posts siteDb) = Some q /\
              slugPath post = slugPath q ++ "/" ++ slug post.
Proof.
  assert (Hrun : exists post db',
            @createPost treeStore siteTypes newPage (Some 7%Z) siteDb = (Ok post, db'))
    by (eexists; eexists; vm_compute; reflexivity).
  destruct Hrun as (post & db' & Hrun).
  exists post, db'. split; [exact Hrun|].
  destruct (@createPost_path_rule treeStore siteTypes newPage (Some 7%Z) siteDb db' post
              Hrun)
    as (_ & Hid & _ & _ & _ & _ & Hparent & _).
  split; [exact Hid|].
  destruct Hparent as (q & Hq & _ & Hpath). exists q. split; assumption.
Defined.

Lemma updatePost_fields_witness :
  exists post' db',
    @updatePost treeStore 50 2 renameBody (Some 7%Z) someUuids siteDb = (Ok post', db') /\
    find (hasId 2) (posts db') = Some post' /\
    name post' = "b" /\ updatedAt post' = Some 50%Z.
Proof.
  assert (Hrun : exists post' db',
            @updatePost treeStore 50 2 renameBody (Some 7%Z) someUuids siteDb
            = (Ok post', db'))
    by (eexists; eexists; vm_compute; reflexivity).
  destruct Hrun as (post' & db' & Hrun).
  exists post', db'. split; [exact Hrun|].
  destruct (@updatePost_fields treeStore 50 2 renameBody (Some 7%Z) someUuids siteDb db'
              post' Hrun)
    as (post & Hpost & Hrow & Hname & _ & Hupdated & _).
  split; [exact Hrow|]. split; [|exact Hupdated].
  rewrite Hname. vm_compute in Hpost. inversion Hpost. reflexivity.
Defined.

Lemma updatePost_frame_witness :
  exists post' db',
    @updatePost treeStore 50 2 renameBody (Some 7%Z) someUuids siteDb = (Ok post', db') /\
    exists r', find (hasId 4) (posts db') = Some r' /\
               r' = set_slugPath (slugPath r') (row 4 "page" "ab" "ab" "draft" None []).
Proof.
  assert (Hrun : exists post' db',
            @updatePost treeStore 50 2 renameBody (Some 7%Z) someUuids siteDb
            = (Ok post', db'))
    by (eexists; eexists; vm_compute; reflexivity).
  destruct Hrun as (post' & db' & Hrun).
  exists post', db'. split; [exact Hrun|].
  destruct (@updatePost_frame treeStore 50 2 renameBody (Some 7%Z) someUuids siteDb db'
              post' Hrun 4%Z (row 4 "page" "ab" "ab" "draft" None []))
    as (r' & Hr' & Hsame & _); [lia | reflexivity |].
  exists r'. split; assumption.
Defined.

Lemma siteDb_ids : List.NoDup (map id (posts siteDb)).
Proof.
  simpl. repeat constructor; simpl; intuition discriminate.
Qed.

Lemma edits_add_one_version_witness :
  exists post' db',
    @updatePost treeStore 50 2 renameBody (Some 7%Z) someUuids siteDb = (Ok post', db') /\
    listVersions (fun _ => 0%Z) 2 true siteDb = VersionCount 1 /\
    listVersions (fun _ => 0%Z) 2 true db' = VersionCount 2.
Proof.
  assert (Hrun : exists post' db',
            @updatePost treeStore 50 2 renameBody (Some 7%Z) someUuids siteDb
            = (Ok post', db'))
    by (eexists; eexists; vm_compute; reflexivity).
  destruct Hrun as (post' & db' & Hrun).
  exists post', db'. split; [exact Hrun|].
  destruct (@edits_add_one_version treeStore (fun _ => 0%Z) 50 2 5 renameBody []
              (Some 7%Z) someUuids siteDb db' 2%Z siteDb_ids
              (or_intror (or_introl (ex_intro _ post' Hrun))))
    as (n & Hbefore & Hafter).
  vm_compute in Hbefore. inversion Hbefore; subst n.
  split; [reflexivity | exact Hafter].
Defined.

Lemma restoreVersion_undoes_update_witness :
  exists p1 db1 p2 db2,
    @updatePost treeStore 50 2 retitleBody (Some 7%Z) someUuids siteDb = (Ok p1, db1) /\
    @restoreVersion treeStore 2 6 (Some 7%Z) otherUuids db1 = (Ok p2, db2) /\
    name p1 = "New" /\ name p2 = "b" /\ tags p2 = [] /\ slugPath p2 = slugPath p1.
Proof.
  assert (Hrun : exists p1 db1 p2 db2,
            @updatePost treeStore 50 2 retitleBody (Some 7%Z) someUuids siteDb
            = (Ok p1, db1) /\
            @restoreVersion treeStore 2 6 (Some 7%Z) otherUuids db1 = (Ok p2, db2) /\
            name p1 = "New")
    by (do 4 eexists; split; [vm_compute; reflexivity | split; vm_compute; reflexivity]).
  destruct Hrun as (p1 & db1 & p2 & db2 & Hrun & Hrun2 & Hname).
  exists p1, db1, p2, db2. split; [exact Hrun|]. split; [exact Hrun2|].
  destruct (@restoreVersion_undoes_update treeStore 50 2 retitleBody (Some 7%Z) (Some 7%Z)
              someUuids otherUuids siteDb db1 db2 p1 p2 Hrun Hrun2)
    as (post & Hpost & _ & Hn & Ht & _ & Hpath & _).
  vm_compute in Hpost. inversion Hpost; subst post.
  split; [exact Hname|]. split; [exact Hn|]. split; [exact Ht | exact Hpath].
Defined.

Lemma publishPosts_frame_witness :
  exists res db',
    @publishPosts treeStore 50 singleBody siteDb = (Ok res, db') /\
    map id (posts db') = map id (posts siteDb) /\
    find (hasId 3) (posts db') = Some (row 3 "page" "c" "a/b/c" "draft" (Some 2%Z) []).
Proof.
  assert (Hrun : exists res db',
            @publishPosts treeStore 50 singleBody siteDb = (Ok res, db'))
    by (eexists; eexists; vm_compute; reflexivity).
  destruct Hrun as (res & db' & Hrun).
  exists res, db'. split; [exact Hrun|].
  destruct (@publishPosts_frame treeStore 50 singleBody siteDb db' res Hrun)
    as (Hids & _ & _ & Hrows).
  split; [exact Hids|].
  destruct (Hrows 3%Z (row 3 "page" "c" "a/b/c" "draft" (Some 2%Z) []) eq_refl)
    as (p' & Hfind & _ & Hsame).
  rewrite Hfind. f_equal. apply Hsame; [reflexivity|].
  simpl. intros [Heq|[]]. discriminate.
Defined.

Lemma getPost_shows_state_before_edit_witness :
  exists post' db' view,
    @updatePost treeStore 50 2 retitleBody (Some 7%Z) someUuids siteDb = (Ok post', db') /\
    getPost 2 (Some 6%Z) db' = Ok view /\
    name post' = "New" /\
    name (view_post view) = "b" /\ id (view_post view) = Some 2%Z.
Proof.
  assert (Hrun : exists post' db',
            @updatePost treeStore 50 2 retitleBody (Some 7%Z) someUuids siteDb
            = (Ok post', db') /\ name post' = "New")
    by (eexists; eexists; split; vm_compute; reflexivity).
  destruct Hrun as (post' & db' & Hrun & Hname).
  destruct (@getPost_shows_state_before_edit treeStore 50 2 5 retitleBody []
              (Some 7%Z) someUuids siteDb db'
              (or_intror (or_introl (ex_intro _ post' Hrun))))
    as (post & view & Hpost & Hview & Hid & _ & _ & Hn & _).
  vm_compute in Hpost. inversion Hpost; subst post.
  exists post', db', view. split; [exact Hrun|]. split; [exact Hview|].
  split; [exact Hname|]. split; [exact Hn | exact Hid].
Defined.
